(** * CROHME.py: the stroke feature-extraction pipeline

    A shallow embedding of the feature extractors of [CROHME.py] and the
    properties of its specification that concern them.

    Conventions of the embedding.
    - Python [int] is [Z]; a point is a pair of [Z]; a stroke is a list of
      points; a trace dictionary ([dict] of stroke id to stroke) is an
      association list in insertion order, which is the order in which
      [dict.items()] and [for k in d] iterate.
    - A Python call either returns or raises: [result A] is [OK a] or
      [Raise e].  Indexing, [np.amax], name lookup and iteration over a
      non-iterable raise as they do in Python.
    - numpy and Python floats are modelled as exact rationals extended with
      the two infinities and NaN ([npfloat]): rounding is not modelled, and
      numpy integer scalars are exact integers.
    - [scipy]'s spline fit and [np.arctan] are parameters of the
      development; so are the built-ins [str.split()] and [int()]. *)

From Stdlib Require Import ZArith QArith Qreduction List String Ascii Bool Lia.
From Stdlib Require Qcanon FinFun.
Import ListNotations.

Local Open Scope string_scope.
Local Open Scope list_scope.
Local Open Scope Z_scope.

(** ** Python runtime: exceptions, indexing, ranges, loops *)

Inductive exn : Set :=
| IndexError
| NameError
| TypeError
| ValueError
| OverflowError
| LibraryError.

Inductive result (A : Type) : Type :=
| OK (a : A)
| Raise (e : exn).

Arguments OK {A} a.
Arguments Raise {A} e.

Definition bind {A B : Type} (r : result A) (k : A -> result B) : result B :=
  match r with
  | OK a => k a
  | Raise e => Raise e
  end.

Notation "x <- c1 ;; c2" := (bind c1 (fun x => c2))
  (at level 61, c1 at next level, right associativity).
Notation "' pat <- c1 ;; c2" := (bind c1 (fun x => match x with pat => c2 end))
  (at level 61, pat pattern, c1 at next level, right associativity).

Definition py_len {A : Type} (l : list A) : Z := Z.of_nat (List.length l).

(** [l[i]], with Python's negative indices and [IndexError]. *)
Definition py_index {A : Type} (l : list A) (i : Z) : result A :=
  let j := if i <? 0 then i + py_len l else i in
  if (0 <=? j) && (j <? py_len l)
  then match nth_error l (Z.to_nat j) with
       | Some a => OK a
       | None => Raise IndexError
       end
  else Raise IndexError.

(** [range(lo, hi)]; empty when [hi <= lo]. *)
Definition py_range (lo hi : Z) : list Z :=
  map (fun k => lo + Z.of_nat k) (seq 0 (Z.to_nat (hi - lo))).

(** [for a in xs: s = body(s, a)]; an exception leaves the loop. *)
Fixpoint for_each {A S : Type} (xs : list A) (body : S -> A -> result S)
  (s : S) : result S :=
  match xs with
  | [] => OK s
  | a :: xs' => s' <- body s a ;; for_each xs' body s'
  end.

(** Loading a name from a scope given as the list of its bindings. *)
Fixpoint load_name {V : Type} (scope : list (string * V)) (name : string)
  : result V :=
  match scope with
  | [] => Raise NameError
  | (n, v) :: scope' => if String.eqb n name then OK v else load_name scope' name
  end.

(** ** Floating-point numbers, idealised *)

Inductive npfloat : Set :=
| Fin (q : Q)
| PInf
| NInf
| NaN.

Definition of_Z (z : Z) : npfloat := Fin (inject_Z z).

Definition Qsign (q : Q) : comparison := (Qnum q ?= 0)%Z.

Definition np_opp (a : npfloat) : npfloat :=
  match a with
  | Fin q => Fin (Qred (Qopp q))
  | PInf => NInf
  | NInf => PInf
  | NaN => NaN
  end.

Definition np_add (a b : npfloat) : npfloat :=
  match a, b with
  | NaN, _ | _, NaN => NaN
  | Fin p, Fin q => Fin (Qred (Qplus p q))
  | PInf, NInf | NInf, PInf => NaN
  | PInf, _ | _, PInf => PInf
  | NInf, _ | _, NInf => NInf
  end.

Definition np_sub (a b : npfloat) : npfloat := np_add a (np_opp b).

(** The sign of an infinite product or quotient. *)
Definition signed_inf (s1 s2 : comparison) : npfloat :=
  match s1, s2 with
  | Eq, _ | _, Eq => NaN
  | Lt, Lt | Gt, Gt => PInf
  | _, _ => NInf
  end.

Definition np_sign (a : npfloat) : option comparison :=
  match a with
  | Fin q => Some (Qsign q)
  | PInf => Some Gt
  | NInf => Some Lt
  | NaN => None
  end.

Definition np_mul (a b : npfloat) : npfloat :=
  match a, b with
  | Fin p, Fin q => Fin (Qred (Qmult p q))
  | _, _ => match np_sign a, np_sign b with
            | Some s1, Some s2 => signed_inf s1 s2
            | _, _ => NaN
            end
  end.

(** numpy division: a finite number over zero is an infinity (NaN for
    0/0), and nothing is raised. *)
Definition np_div (a b : npfloat) : npfloat :=
  match a, b with
  | NaN, _ | _, NaN => NaN
  | Fin p, Fin q =>
      match Qsign q with
      | Eq => signed_inf (Qsign p) Gt
      | _ => Fin (Qred (Qdiv p q))
      end
  | Fin _, _ => Fin 0
  | _, Fin q =>
      match np_sign a with
      | Some s => signed_inf s (match Qsign q with Eq => Gt | s2 => s2 end)
      | None => NaN
      end
  | _, _ => NaN
  end.

(** Comparisons; each is [False] as soon as one side is NaN. *)
Definition np_cmp (a b : npfloat) : option comparison :=
  match a, b with
  | NaN, _ | _, NaN => None
  | Fin p, Fin q => Some (Qcompare p q)
  | PInf, PInf | NInf, NInf => Some Eq
  | PInf, _ | _, NInf => Some Gt
  | NInf, _ | _, PInf => Some Lt
  end.

Definition np_ltb (a b : npfloat) : bool :=
  match np_cmp a b with Some Lt => true | _ => false end.
Definition np_gtb (a b : npfloat) : bool := np_ltb b a.
Definition np_leb (a b : npfloat) : bool :=
  match np_cmp a b with Some Lt | Some Eq => true | _ => false end.
Definition np_geb (a b : npfloat) : bool := np_leb b a.
Definition np_eqb (a b : npfloat) : bool :=
  match np_cmp a b with Some Eq => true | _ => false end.

(** [np.mean]: the sum over the count; NaN for the empty list. *)
Definition np_sum (l : list npfloat) : npfloat := fold_left np_add l (Fin 0).
Definition np_mean (l : list npfloat) : npfloat :=
  np_div (np_sum l) (of_Z (py_len l)).

(** [np.amax] and [np.amin] of a list of integers; [ValueError] on the
    empty list (a reduction with no identity). *)
Definition np_amax (l : list Z) : result Z :=
  match l with
  | [] => Raise ValueError
  | a :: l' => OK (fold_left Z.max l' a)
  end.

Definition np_amin (l : list Z) : result Z :=
  match l with
  | [] => Raise ValueError
  | a :: l' => OK (fold_left Z.min l' a)
  end.

(** [np.linspace(start, stop, 6)]: five steps of a fifth of the span, the
    last break point being [stop] itself. *)
Definition np_linspace6 (start stop : npfloat) : list npfloat :=
  let step := np_div (np_sub stop start) (of_Z 5) in
  map (fun i => np_add (np_mul (of_Z i) step) start) (py_range 0 5) ++ [stop].

(** [int(f)] of a float: truncation toward zero. *)
Definition int_of_float (f : npfloat) : result Z :=
  match f with
  | Fin q => OK (Z.quot (Qnum q) (Zpos (Qden q)))
  | PInf | NInf => Raise OverflowError
  | NaN => Raise ValueError
  end.

(** ** Data model *)

Definition point : Set := (Z * Z)%type.
Definition stroke : Set := list point.
Definition trace_dict : Set := list (Z * stroke).

Definition point_eqb (p q : point) : bool :=
  (fst p =? fst q) && (snd p =? snd q).

(** [d[k] = v]: replaces the value of an existing key in place, appends a
    new key at the end. *)
Fixpoint dict_set {V : Type} (k : Z) (v : V) (d : list (Z * V)) : list (Z * V) :=
  match d with
  | [] => [(k, v)]
  | (k', v') :: d' => if k' =? k then (k, v) :: d' else (k', v') :: dict_set k v d'
  end.

(** What a function of the program may be handed where it expects a list
    of points: the list, or (when a dictionary is iterated without
    [.items()]) an integer key. *)
Inductive pyobj : Set :=
| PyInt (z : Z)
| PyPoints (ps : stroke).

(** ** The program *)

(** [separate_x_y_coors_from_points]: the comprehension iterates its
    argument, which raises [TypeError] on an integer. *)
Definition separate_x_y_coors_from_points (points : pyobj)
  : result (list Z * list Z) :=
  match points with
  | PyPoints ps => OK (map fst ps, map snd ps)
  | PyInt _ => Raise TypeError
  end.

(** [extract_num_points_and_strokes] *)
Definition extract_num_points_and_strokes (d : trace_dict) : Z * Z :=
  let num_strokes := py_len d in
  let num_points :=
    fold_left (fun n (kv : Z * stroke) => n + py_len (snd kv)) d 0 in
  (num_points, num_strokes).

(** [extract_directions].  The codes of the four directions. *)
Definition up : Z := 1.
Definition down : Z := 2.
Definition left : Z := 3.
Definition right : Z := 4.

(** [x in l] on a list of integers. *)
Definition py_in (x : Z) (l : list Z) : bool := existsb (Z.eqb x) l.

(** [coors[i] - coors[j]] *)
Definition delta (coors : list Z) (i j : Z) : result Z :=
  a <- py_index coors i ;; b <- py_index coors j ;; OK (a - b).

(** [code not in directions_for_trace and (moved)]: the right operand of
    [and] is evaluated only when the left one holds. *)
Definition first_seen (code : Z) (dirs : list Z) (moved : result bool)
  : result bool :=
  if negb (py_in code dirs) then moved else OK false.

(** One turn of the loop over [i] (lines 134 to 146). *)
Definition directions_step (x_coors y_coors : list Z) (dirs : list Z) (i : Z)
  : result (list Z) :=
  if py_len dirs <? 4 then
    c <- first_seen up dirs (d <- delta y_coors i (i - 1) ;; OK (d >? 0)) ;;
    let dirs := if c then dirs ++ [up] else dirs in
    c <- first_seen down dirs (d <- delta y_coors i (i - 1) ;; OK (d <? 0)) ;;
    let dirs := if c then dirs ++ [down] else dirs in
    c <- first_seen left dirs (d <- delta x_coors i (i - 1) ;; OK (d <? 0)) ;;
    let dirs := if c then dirs ++ [left] else dirs in
    c <- first_seen right dirs (d <- delta x_coors i (i - 1) ;; OK (d >? 0)) ;;
    let dirs := if c then dirs ++ [right] else dirs in
    OK dirs
  else OK dirs.

(** The list [directions_for_trace] that the body of the outer loop builds
    for one stroke. *)
Definition directions_for_trace (points : stroke) : result (list Z) :=
  '(x_coors, y_coors) <- separate_x_y_coors_from_points (PyPoints points) ;;
  for_each (py_range 1 (py_len x_coors)) (directions_step x_coors y_coors) [].

Definition extract_directions (d : trace_dict) : result (list Z) :=
  for_each d
    (fun directions (kv : Z * stroke) =>
       dirs <- directions_for_trace (snd kv) ;;
       OK (directions ++ dirs))
    [].

(** [extract_aspect_ratio].  The four assignments of lines 201 to 204,
    which [extract_frequencies] repeats at lines 232 to 235; the state is
    [(max_x, min_x, max_y, min_y)]. *)
Definition bounds : Set := (npfloat * npfloat * npfloat * npfloat)%type.

Definition update_bounds (b : bounds) (x_coors y_coors : list Z)
  : result bounds :=
  let '(max_x, min_x, max_y, min_y) := b in
  m <- np_amax x_coors ;;
  let max_x := if np_gtb (of_Z m) max_x then of_Z m else max_x in
  m <- np_amax y_coors ;;
  let max_y := if np_gtb (of_Z m) max_y then of_Z m else max_y in
  m <- np_amin x_coors ;;
  let min_x := if np_ltb (of_Z m) min_x then of_Z m else min_x in
  m <- np_amin y_coors ;;
  let min_y := if np_ltb (of_Z m) min_y then of_Z m else min_y in
  OK (max_x, min_x, max_y, min_y).

Definition initial_bounds : bounds := (NInf, PInf, NInf, PInf).

(** [0.01] *)
Definition one_hundredth : npfloat := Fin (1 # 100).

Definition extract_aspect_ratio (d : trace_dict) : result npfloat :=
  b <- for_each d
         (fun b (kv : Z * stroke) =>
            '(x_coors, y_coors) <-
              separate_x_y_coors_from_points (PyPoints (snd kv)) ;;
            update_bounds b x_coors y_coors)
         initial_bounds ;;
  let '(max_x, min_x, max_y, min_y) := b in
  let width := np_sub max_x min_x in
  let height := np_sub max_y min_y in
  let width := if np_leb width (Fin 0) then one_hundredth else width in
  let height := if np_leb height (Fin 0) then one_hundredth else height in
  OK (np_div width height).

(** [extract_frequencies].  [freq[i] += 1] *)
Fixpoint list_incr (i : nat) (freq : list Z) : list Z :=
  match freq, i with
  | [], _ => []
  | n :: freq', O => (n + 1) :: freq'
  | n :: freq', S i' => n :: list_incr i' freq'
  end.

(** [(v >= intervals[i]) and (v < intervals[i+1])] *)
Definition in_bin (intervals : list npfloat) (v : Z) (i : Z) : result bool :=
  lo <- py_index intervals i ;;
  if np_geb (of_Z v) lo
  then hi <- py_index intervals (i + 1) ;; OK (np_ltb (of_Z v) hi)
  else OK false.

(** The [if]/[elif] chain of lines 253 to 262 (and 266 to 275). *)
Definition count_in_bins (intervals : list npfloat) (freq : list Z) (v : Z)
  : result (list Z) :=
  b0 <- in_bin intervals v 0 ;;
  if b0 then OK (list_incr 0 freq) else
  b1 <- in_bin intervals v 1 ;;
  if b1 then OK (list_incr 1 freq) else
  b2 <- in_bin intervals v 2 ;;
  if b2 then OK (list_incr 2 freq) else
  b3 <- in_bin intervals v 3 ;;
  if b3 then OK (list_incr 3 freq) else
  OK (list_incr 4 freq).

(** Both loops are written [for trace in trace_dict], which iterates the
    keys of the dictionary; the second loop reads [x_coor] and [y_coor],
    where the names it has bound are [x_coors] and [y_coors]. *)
Definition extract_frequencies (d : trace_dict) : result (list (list Z)) :=
  b <- for_each (map fst d)
         (fun b (trace : Z) =>
            '(x_coors, y_coors) <-
              separate_x_y_coors_from_points (PyInt trace) ;;
            update_bounds b x_coors y_coors)
         initial_bounds ;;
  let '(max_x, min_x, max_y, min_y) := b in
  let range_x := np_sub max_x min_x in
  let intervals_x := np_linspace6 (Fin 0) range_x in
  let intervals_x := map (fun value => np_add value min_x) intervals_x in
  let range_y := np_sub max_y min_y in
  let intervals_y := np_linspace6 (Fin 0) range_y in
  let intervals_y := map (fun value => np_add value min_y) intervals_y in
  let freq_x := [0; 0; 0; 0; 0] in
  let freq_y := [0; 0; 0; 0; 0] in
  '(freq_x, freq_y) <-
    for_each (map fst d)
      (fun (freq : list Z * list Z) (trace : Z) =>
         let '(freq_x, freq_y) := freq in
         '(x_coors, y_coors) <-
           separate_x_y_coors_from_points (PyInt trace) ;;
         let scope := [("x_coors", x_coors); ("y_coors", y_coors)] in
         x_coor <- load_name scope "x_coor" ;;
         freq_x <- for_each x_coor (count_in_bins intervals_x) freq_x ;;
         y_coor <- load_name scope "y_coor" ;;
         freq_y <- for_each y_coor (count_in_bins intervals_y) freq_y ;;
         OK (freq_x, freq_y))
      (freq_x, freq_y) ;;
  OK [freq_x; freq_y].

(** [remove_consecutive_duplicate_points].  The list [points_to_keep] that
    the body of the loop builds for one stroke (lines 305 to 310). *)
Definition points_to_keep (points : stroke) : result stroke :=
  first <- py_index points 0 ;;
  keep <- for_each (py_range 0 (py_len points - 2))
            (fun keep i =>
               p <- py_index points i ;;
               q <- py_index points (i + 1) ;;
               if negb (point_eqb p q) then OK (keep ++ [q]) else OK keep)
            [first] ;;
  first <- py_index points 0 ;;
  last <- py_index points (-1) ;;
  if negb (point_eqb first last) then OK (keep ++ [last]) else OK keep.

Definition remove_consecutive_duplicate_points (d : trace_dict)
  : result trace_dict :=
  for_each d
    (fun new_trace_dict (kv : Z * stroke) =>
       keep <- points_to_keep (snd kv) ;;
       OK (dict_set (fst kv) keep new_trace_dict))
    [].

(** [get_coordinates_from_trace].  [s.replace('\n', '')] and
    [s.split(',')] on strings. *)
Fixpoint str_remove_newlines (s : string) : string :=
  match s with
  | EmptyString => EmptyString
  | String c s' =>
      if Ascii.eqb c "010"%char then str_remove_newlines s'
      else String c (str_remove_newlines s')
  end.

Fixpoint str_split_on (sep : ascii) (s : string) : list string :=
  match s with
  | EmptyString => [EmptyString]
  | String c s' =>
      if Ascii.eqb c sep then EmptyString :: str_split_on sep s'
      else match str_split_on sep s' with
           | [] => [String c EmptyString]
           | w :: ws => String c w :: ws
           end
  end.

(** A file as BeautifulSoup hands it over: for each [annotation] element
    the text of its children, for each [trace] element the text of its
    contents. *)
Record soup : Set := {
  annotation : list (list string);
  trace : list (list string)
}.

(** The record that [extract_features] returns. *)
Record feature_row : Set := {
  UI : option string;
  NUM_POINTS : Z;
  NUM_STROKES : Z;
  DIRECTIONS : list Z;
  CURVATURE : npfloat;
  ASPECT_RATIO : npfloat;
  FREQUENCIES : list (list Z);
  SYMBOL_REPRESENTATION : option string
}.

Section Pipeline.

(** The built-ins [str.split()] and [int()] ([None] for [ValueError]). *)
Variable str_split : string -> list string.
Variable py_int : string -> option Z.

(** [np.arctan]. *)
Variable np_arctan : npfloat -> npfloat.

(** [interpolate_spline_points(x_coors, y_coors, deg)]: scipy's [splprep]
    and [splev]; it returns two sequences of floats or raises. *)
Variable interpolate_spline_points :
  list Z -> list Z -> Z -> result (list npfloat * list npfloat).

(** A token that does not split into two integers is skipped (the
    diagnostic it prints is not modelled). *)
Definition get_coordinates_from_trace (contents : list string)
  : result stroke :=
  trace_as_string <- py_index contents 0 ;;
  OK (fold_left
        (fun points coor =>
           match firstn 2 (str_split coor) with
           | [x; y] =>
               match py_int x with
               | Some x => match py_int y with
                           | Some y => points ++ [(x, - y)]
                           | None => points
                           end
               | None => points
               end
           | _ => points
           end)
        (str_split_on ","%char (str_remove_newlines trace_as_string))
        []).

(** [extract_curvature].  One turn of the loop over [i] (lines 167 to
    180). *)
Definition curvature_step (x_coors y_coors : list Z)
  (trace_curves : list npfloat) (i : Z) : result (list npfloat) :=
  let delta_x := one_hundredth in
  let delta_y := Fin 0 in
  if py_len x_coors >? 4 then
    '(delta_x, delta_y) <-
      (if i <? 2 then
         dx <- delta x_coors (i + 2) i ;;
         dy <- delta y_coors (i + 2) i ;;
         OK (of_Z dx, of_Z dy)
       else if i >? py_len x_coors - 3 then
         dx <- delta x_coors i (i - 2) ;;
         dy <- delta y_coors i (i - 2) ;;
         OK (of_Z dx, of_Z dy)
       else
         dx <- delta x_coors (i + 2) (i - 2) ;;
         dy <- delta y_coors (i + 2) (i - 2) ;;
         OK (of_Z dx, of_Z dy)) ;;
    if negb (np_eqb delta_x (Fin 0))
    then OK (trace_curves ++ [np_arctan (np_div delta_y delta_x)])
    else OK trace_curves
  else OK trace_curves.

(** The list [trace_curves] of the slopes computed for one stroke. *)
Definition trace_curves (points : stroke) : result (list npfloat) :=
  '(x_coors, y_coors) <- separate_x_y_coors_from_points (PyPoints points) ;;
  for_each (py_range 1 (py_len x_coors)) (curvature_step x_coors y_coors) [].

(** What one stroke appends to [character_curvature] (lines 181 to
    184). *)
Definition stroke_curvature (points : stroke) : result npfloat :=
  curves <- trace_curves points ;;
  if py_len curves =? 0 then OK (Fin 0) else OK (np_mean curves).

Definition extract_curvature (d : trace_dict) : result npfloat :=
  character_curvature <-
    for_each d
      (fun character_curvature (kv : Z * stroke) =>
         c <- stroke_curvature (snd kv) ;;
         OK (character_curvature ++ [c]))
      [] ;;
  OK (np_mean character_curvature).

(** [smooth_points].  The value stored under one stroke's id (lines 354
    to 367). *)
Definition smooth_stroke (points : stroke) : result stroke :=
  '(x_coors, y_coors) <- separate_x_y_coors_from_points (PyPoints points) ;;
  let new_coors := ([], []) in
  new_coors <-
    (if py_len x_coors =? 2
     then interpolate_spline_points x_coors y_coors 1 else OK new_coors) ;;
  new_coors <-
    (if py_len x_coors =? 3
     then interpolate_spline_points x_coors y_coors 2 else OK new_coors) ;;
  new_coors <-
    (if py_len x_coors >? 3
     then interpolate_spline_points x_coors y_coors 3 else OK new_coors) ;;
  new_points <-
    for_each (combine (fst new_coors) (snd new_coors))
      (fun new_points (xy : npfloat * npfloat) =>
         new_x <- int_of_float (fst xy) ;;
         new_y <- int_of_float (snd xy) ;;
         OK (new_points ++ [(new_x, new_y)]))
      [] ;;
  OK (if negb (py_len new_points =? 0) then new_points else points).

Definition smooth_points (d : trace_dict) : result trace_dict :=
  for_each d
    (fun new_trace_dict (kv : Z * stroke) =>
       new_points <- smooth_stroke (snd kv) ;;
       OK (dict_set (fst kv) new_points new_trace_dict))
    [].

(** The loop of lines 391 to 393: one stroke per [trace] element, under
    its rank. *)
Definition read_traces (file : soup) : result trace_dict :=
  for_each (combine (py_range 0 (py_len (trace file))) (trace file))
    (fun trace_dict (it : Z * list string) =>
       points <- get_coordinates_from_trace (snd it) ;;
       OK (dict_set (fst it) points trace_dict))
    [].

(** [extract_features], called without [draw_input_data] as
    [build_training_data] calls it, on the document read from the file.
    The argument of the call at line 402 is the name [trace_groups]; the
    only dictionary bound in the function is [trace_dict]. *)
Definition extract_features (file : soup) : result feature_row :=
  node <- py_index (annotation file) 1 ;;
  let unique_id := fold_left (fun _ n => Some n) node None in
  trace_dict <- read_traces file ;;
  collapsed <- remove_consecutive_duplicate_points trace_dict ;;
  trace_dict <- smooth_points collapsed ;;
  let '(num_points, num_strokes) := extract_num_points_and_strokes trace_dict in
  directions <- extract_directions trace_dict ;;
  curvature <- extract_curvature trace_dict ;;
  aspect_ratio <- extract_aspect_ratio trace_dict ;;
  frequencies <-
    (trace_groups <- load_name [("trace_dict", trace_dict)] "trace_groups" ;;
     extract_frequencies trace_groups) ;;
  OK {| UI := unique_id;
        NUM_POINTS := num_points;
        NUM_STROKES := num_strokes;
        DIRECTIONS := directions;
        CURVATURE := curvature;
        ASPECT_RATIO := aspect_ratio;
        FREQUENCIES := frequencies;
        SYMBOL_REPRESENTATION := None |}.

End Pipeline.

(** ** Instances of the parameters, to run the pipeline on concrete files *)

(** [str.split()] on text whose only white space is the space
    character. *)
Fixpoint split_spaces (s : string) : list string :=
  match s with
  | EmptyString => []
  | String c s' =>
      if Ascii.eqb c " "%char then split_spaces s'
      else match s' with
           | EmptyString => [String c EmptyString]
           | String c' _ =>
               if Ascii.eqb c' " "%char then String c EmptyString :: split_spaces s'
               else match split_spaces s' with
                    | [] => [String c EmptyString]
                    | w :: ws => String c w :: ws
                    end
           end
  end.

(** [int()] on an optional minus sign followed by decimal digits. *)
Definition digit_of (c : ascii) : option Z :=
  let n := Z.of_nat (nat_of_ascii c) in
  if (48 <=? n) && (n <=? 57) then Some (n - 48) else None.

Fixpoint decimal_digits (acc : Z) (s : string) : option Z :=
  match s with
  | EmptyString => Some acc
  | String c s' =>
      match digit_of c with
      | Some v => decimal_digits (10 * acc + v) s'
      | None => None
      end
  end.

Definition decimal_int (s : string) : option Z :=
  match s with
  | EmptyString => None
  | String c s' =>
      if Ascii.eqb c "-"%char
      then match s' with
           | EmptyString => None
           | _ => option_map Z.opp (decimal_digits 0 s')
           end
      else decimal_digits 0 s
  end.

(** A smoother that resamples every stroke at its own points. *)
Definition resample_at_knots (x_coors y_coors : list Z) (deg : Z)
  : result (list npfloat * list npfloat) :=
  OK (map of_Z x_coors, map of_Z y_coors).

(** The first-order term of the arctangent. *)
Definition small_angle (a : npfloat) : npfloat := a.

(** A file with one trace of two points, and a file whose only trace holds
    no coordinate pair. *)
Definition two_point_file : soup :=
  {| annotation := [["No"]; ["101_alfonso_0"]];
     trace := [["0 0, 1 -1"]] |}.



Definition no_trace_file : soup :=
  {| annotation := [["No"]; ["101_alfonso_2"]];
     trace := [] |}.


(** ** Helpers and callers of the pipeline *)

(** [s.index(c)]: the position of the first occurrence of a character,
    [ValueError] when there is none. *)
Fixpoint str_index (c : ascii) (s : string) : result Z :=
  match s with
  | EmptyString => Raise ValueError
  | String c' s' =>
      if Ascii.eqb c' c then OK 0 else i <- str_index c s' ;; OK (i + 1)
  end.

(** [file_sorting_helper].  [platform == WINDOWS_PLATFORM] and the built-in
    [int()] are parameters; [iso_name[3:i]] is the substring from position
    3 up to position [i]. *)
Definition file_sorting_helper (on_windows : bool)
  (py_int : string -> option Z) (full_path_name : string) : result Z :=
  let sep := if on_windows then "\"%char else "/"%char in
  iso_name <- py_index (str_split_on sep full_path_name) (-1) ;;
  file_extension_idx <- str_index "."%char iso_name ;;
  match py_int (substring 3 (Z.to_nat file_extension_idx - 3) iso_name) with
  | Some iso_num => OK iso_num
  | None => Raise ValueError
  end.

(** [build_training_data].  What the batch level can raise: an exception
    of [extract_features], or [KeyError] from [ui_to_symbols[...]]. *)
Inductive batch_exn : Set :=
| SampleError (e : exn)
| KeyError.

(** [ui_to_symbols[key]] on the dictionary that [map_ids_to_symbols] has
    returned, whose keys are strings; [None] stands for [KeyError]. *)
Fixpoint dict_get (ui_to_symbols : list (string * string))
  (key : option string) : option string :=
  match ui_to_symbols, key with
  | (k, v) :: rest, Some name =>
      if String.eqb k name then Some v else dict_get rest key
  | _, _ => None
  end.

(** The loop of lines 526 to 532 over the documents of the files; the data
    frame is the list of its rows, and the progress lines are not
    modelled. *)
Fixpoint build_rows (extract : soup -> result feature_row)
  (ui_to_symbols : list (string * string)) (symbol_files : list soup)
  (df : list feature_row) : list feature_row + batch_exn :=
  match symbol_files with
  | [] => inl df
  | symbol_file :: symbol_files' =>
      match extract symbol_file with
      | Raise e => inr (SampleError e)
      | OK row =>
          match dict_get ui_to_symbols (UI row) with
          | None => inr KeyError
          | Some symbol =>
              let row :=
                {| UI := UI row;
                   NUM_POINTS := NUM_POINTS row;
                   NUM_STROKES := NUM_STROKES row;
                   DIRECTIONS := DIRECTIONS row;
                   CURVATURE := CURVATURE row;
                   ASPECT_RATIO := ASPECT_RATIO row;
                   FREQUENCIES := FREQUENCIES row;
                   SYMBOL_REPRESENTATION := Some symbol |} in
              build_rows extract ui_to_symbols symbol_files' (df ++ [row])
          end
      end
  end.

Definition build_training_data (str_split : string -> list string)
  (py_int : string -> option Z) (np_arctan : npfloat -> npfloat)
  (interpolate_spline_points :
     list Z -> list Z -> Z -> result (list npfloat * list npfloat))
  (ui_to_symbols : list (string * string)) (symbol_files : list soup)
  : list feature_row + batch_exn :=
  build_rows
    (extract_features str_split py_int np_arctan interpolate_spline_points)
    ui_to_symbols symbol_files [].

(** [map_ids_to_symbols], the loop of lines 507 and 508 over the lines
    of the ground-truth file once it has been found and opened.
    [s.strip('\n')] removes the newlines at both ends. *)
Fixpoint str_lstrip_newlines (s : string) : string :=
  match s with
  | EmptyString => EmptyString
  | String c s' =>
      if Ascii.eqb c "010"%char then str_lstrip_newlines s' else s
  end.

Fixpoint str_rstrip_newlines (s : string) : string :=
  match s with
  | EmptyString => EmptyString
  | String c s' =>
      match str_rstrip_newlines s' with
      | EmptyString =>
          if Ascii.eqb c "010"%char then EmptyString
          else String c EmptyString
      | r => String c r
      end
  end.

Definition str_strip_newlines (s : string) : string :=
  str_rstrip_newlines (str_lstrip_newlines s).

(** [d[k] = v] on a dictionary whose keys are strings. *)
Fixpoint str_dict_set (k v : string) (d : list (string * string))
  : list (string * string) :=
  match d with
  | [] => [(k, v)]
  | (k', v') :: d' =>
      if String.eqb k' k then (k, v) :: d' else (k', v') :: str_dict_set k v d'
  end.

(** The right-hand side of the assignment is evaluated before the key. *)
Definition read_ground_truth (lines : list string)
  : result (list (string * string)) :=
  for_each lines
    (fun ground_truth_dict line =>
       symbol <- py_index (str_split_on ","%char line) 1 ;;
       uid <- py_index (str_split_on ","%char line) 0 ;;
       OK (str_dict_set uid (str_strip_newlines symbol) ground_truth_dict))
    [].

(** ** Reference descriptions, for comparison with the loops *)

(** The points of a run that differ from their predecessor, [prev] being
    the predecessor of the first. *)
Fixpoint collapse_run (prev : point) (l : stroke) : stroke :=
  match l with
  | [] => []
  | q :: l' =>
      if point_eqb prev q then collapse_run q l' else q :: collapse_run q l'
  end.

(** No point of the list equals the point before it. *)
Fixpoint no_consecutive_duplicates (prev : point) (l : stroke) : Prop :=
  match l with
  | [] => True
  | q :: l' => prev <> q /\ no_consecutive_duplicates q l'
  end.

(** The step from [p] to [q] goes the way of the direction code. *)
Definition moves (code : Z) (p q : point) : Prop :=
  (code = up /\ snd p < snd q) \/ (code = down /\ snd q < snd p)
  \/ (code = left /\ fst q < fst p) \/ (code = right /\ fst p < fst q).

(** Some two consecutive points of the stroke make such a step. *)
Definition some_step_moves (code : Z) (points : stroke) : Prop :=
  exists before p q after,
    points = before ++ p :: q :: after /\ moves code p q.




(** The same drawing moved by [(dx, dy)]. *)
Definition translate (dx dy : Z) (d : trace_dict) : trace_dict :=
  map (fun kv : Z * stroke =>
         (fst kv, map (fun p : point => (fst p + dx, snd p + dy)) (snd kv)))
      d.

(** ** Predicates of the statements *)

Definition direction_codes : list Z := [up; down; left; right].

(** What the loop over one stroke keeps true of [directions_for_trace]. *)
Definition distinct_codes (dirs : list Z) : Prop :=
  NoDup dirs /\ incl dirs direction_codes.


(** One of the four [if]s of lines 136 to 146, once its test is known. *)
Definition seen_after (code : Z) (moved : bool) (dirs : list Z) : list Z :=
  if negb (py_in code dirs) && moved then dirs ++ [code] else dirs.

(** The step that ends at index [i] goes the way of [code]. *)
Definition moves_at (points : stroke) (i : Z) (code : Z) : Prop :=
  exists p q,
    nth_error points (Z.to_nat (i - 1)) = Some p
    /\ nth_error points (Z.to_nat i) = Some q
    /\ moves code p q.

(** What the loop over one stroke keeps true before the turn of index
    [i]: the codes collected are those of the steps made so far. *)
Definition codes_of_steps (points : stroke) (i : Z) (dirs : list Z) : Prop :=
  1 <= i
  /\ distinct_codes dirs
  /\ (forall c, In c dirs -> exists j, 1 <= j < i /\ moves_at points j c)
  /\ (forall c j, 1 <= j < i -> moves_at points j c -> In c dirs).


(** The point moved by [(dx, dy)]. *)
Definition shift (dx dy : Z) (p : point) : point := (fst p + dx, snd p + dy).

(** The float is a finite number. *)
Definition finite (f : npfloat) : Prop := exists q, f = Fin q.

(** The sum of the counts of a histogram. *)
Definition total (freq : list Z) : Z := fold_right Z.add 0 freq.

(** The character does not occur in the string. *)
Fixpoint lacks (c : ascii) (s : string) : Prop :=
  match s with
  | EmptyString => True
  | String c' s' => c' <> c /\ lacks c s'
  end.

(** The separator that [file_sorting_helper] splits the path on. *)
Definition path_separator (on_windows : bool) : ascii :=
  if on_windows then "\"%char else "/"%char.

(** ** Facts about the runtime *)

Lemma py_len_map {A B : Type} (f : A -> B) (l : list A) :
  py_len (map f l) = py_len l.
Proof. unfold py_len. now rewrite length_map. Qed.

(** An index within bounds is read without [IndexError]. *)
Lemma py_index_in_range {A : Type} (l : list A) (i : Z) :
  0 <= i < py_len l ->
  exists a, py_index l i = OK a /\ nth_error l (Z.to_nat i) = Some a.
Proof.
  intros Hi. unfold py_index.
  replace (i <? 0) with false by (symmetry; apply Z.ltb_ge; lia).
  replace ((0 <=? i) && (i <? py_len l)) with true
    by (symmetry; apply andb_true_iff; split;
        [apply Z.leb_le | apply Z.ltb_lt]; lia).
  destruct (nth_error l (Z.to_nat i)) as [a|] eqn:E.
  - now exists a.
  - apply nth_error_None in E. unfold py_len in Hi. lia.
Qed.

Lemma py_index_empty {A : Type} (i : Z) : py_index (@nil A) i = Raise IndexError.
Proof.
  unfold py_index, py_len. cbn [List.length Z.of_nat].
  destruct (i <? 0) eqn:E.
  - replace (0 <=? i + 0) with false; [reflexivity|].
    symmetry. apply Z.leb_gt. apply Z.ltb_lt in E. lia.
  - destruct (0 <=? i); [|reflexivity].
    replace (i <? 0) with false; reflexivity.
Qed.

Lemma in_py_range (lo hi i : Z) : In i (py_range lo hi) <-> lo <= i < hi.
Proof.
  unfold py_range. rewrite in_map_iff. split.
  - intros [k [<- Hk]]. apply in_seq in Hk. lia.
  - intros H. exists (Z.to_nat (i - lo)). split; [lia|].
    apply in_seq. lia.
Qed.

Lemma delta_in_range (coors : list Z) (i j : Z) :
  0 <= i < py_len coors -> 0 <= j < py_len coors ->
  exists d, delta coors i j = OK d.
Proof.
  intros Hi Hj. unfold delta.
  destruct (py_index_in_range coors i Hi) as [a [-> _]].
  destruct (py_index_in_range coors j Hj) as [b [-> _]].
  cbn. now eexists.
Qed.

Lemma for_each_cons {A S : Type} (a : A) (xs : list A)
  (body : S -> A -> result S) (s : S) :
  for_each (a :: xs) body s = (s' <- body s a ;; for_each xs body s').
Proof. reflexivity. Qed.

(** A loop whose body keeps an invariant and never raises returns, in a
    state where the invariant holds. *)
Lemma for_each_invariant {A S : Type} (P : S -> Prop) (xs : list A)
  (body : S -> A -> result S) :
  (forall s a, In a xs -> P s -> exists s', body s a = OK s' /\ P s') ->
  forall s, P s -> exists s', for_each xs body s = OK s' /\ P s'.
Proof.
  induction xs as [|a xs IH]; intros Hbody s Hs; cbn.
  - now exists s.
  - destruct (Hbody s a (or_introl eq_refl) Hs) as [s1 [-> Hs1]]. cbn.
    apply IH; [|assumption].
    intros s2 b Hb. apply Hbody. now right.
Qed.

(** The same when the body may raise: the invariant holds if the loop
    returns. *)
Lemma for_each_preserves {A S : Type} (P : S -> Prop) (xs : list A)
  (body : S -> A -> result S) :
  (forall s a s', In a xs -> P s -> body s a = OK s' -> P s') ->
  forall s s', P s -> for_each xs body s = OK s' -> P s'.
Proof.
  induction xs as [|a xs IH]; intros Hbody s s' Hs; cbn.
  - intros [= <-]. assumption.
  - destruct (body s a) as [s1|e] eqn:E; cbn; [|discriminate].
    apply IH.
    + intros s2 b s3 Hb. apply Hbody. now right.
    + apply (Hbody s a s1); [now left | assumption | assumption].
Qed.

Lemma dict_set_Forall {V : Type} (P : V -> Prop) (k : Z) (v : V)
  (d : list (Z * V)) :
  P v -> Forall (fun kv => P (snd kv)) d ->
  Forall (fun kv => P (snd kv)) (dict_set k v d).
Proof.
  intros Hv. induction d as [|[k' v'] d IH]; intros Hd; cbn.
  - constructor; [assumption | constructor].
  - inversion Hd as [|? ? Hv' Hd']; subst.
    destruct (k' =? k); constructor; auto.
Qed.

(** ** Directions *)

Lemma py_in_false (x : Z) (l : list Z) : py_in x l = false -> ~ In x l.
Proof.
  unfold py_in. intros H Hin.
  assert (existsb (Z.eqb x) l = true) as E.
  { apply existsb_exists. exists x. split; [assumption | apply Z.eqb_refl]. }
  congruence.
Qed.

Lemma distinct_codes_append (code : Z) (dirs : list Z) (moved : result bool)
  (c : bool) :
  In code direction_codes -> distinct_codes dirs ->
  first_seen code dirs moved = OK c ->
  distinct_codes (if c then dirs ++ [code] else dirs).
Proof.
  intros Hcode [Hnd Hincl] Hc. destruct c; [|now split].
  unfold first_seen in Hc.
  destruct (py_in code dirs) eqn:E; cbn in Hc; [discriminate|].
  apply py_in_false in E. split.
  - apply NoDup_app; [assumption | repeat constructor; intros [] | ].
    intros a Ha [<- | []]. contradiction.
  - intros a Ha. apply in_app_or in Ha. destruct Ha as [Ha | [<- | []]]; auto.
Qed.

Lemma distinct_codes_length (dirs : list Z) :
  distinct_codes dirs -> (List.length dirs <= 4)%nat.
Proof.
  intros [Hnd Hincl].
  apply (NoDup_incl_length Hnd Hincl).
Qed.

Lemma first_seen_returns (code : Z) (dirs : list Z) (moved : result bool) :
  (exists b, moved = OK b) -> exists c, first_seen code dirs moved = OK c.
Proof.
  intros [b ->]. unfold first_seen. destruct (negb (py_in code dirs)); eauto.
Qed.

Lemma moved_returns (coors : list Z) (i : Z) (test : Z -> bool) :
  1 <= i < py_len coors ->
  exists b, (d <- delta coors i (i - 1) ;; OK (test d)) = OK b.
Proof.
  intros Hi. destruct (delta_in_range coors i (i - 1)) as [d ->]; [lia | lia |].
  cbn. now eexists.
Qed.

Lemma directions_step_invariant (x_coors y_coors dirs : list Z) (i : Z) :
  py_len y_coors = py_len x_coors ->
  1 <= i < py_len x_coors ->
  distinct_codes dirs ->
  exists dirs', directions_step x_coors y_coors dirs i = OK dirs'
                /\ distinct_codes dirs'.
Proof.
  intros Hlen Hi Hd. unfold directions_step.
  destruct (py_len dirs <? 4); [|now exists dirs].
  assert (In up direction_codes /\ In down direction_codes
          /\ In left direction_codes /\ In right direction_codes)
    as (Hu & Hdn & Hl & Hr) by (cbn; tauto).
  repeat match goal with
  | |- exists r, (c <- first_seen ?code ?ds ?m ;; _) = OK r /\ _ =>
      let c := fresh "c" in
      let E := fresh "E" in
      let H := fresh "H" in
      destruct (first_seen_returns code ds m) as [c E];
      [ apply moved_returns; lia
      | rewrite E; cbn [bind];
        assert (distinct_codes (if c then ds ++ [code] else ds)) as H
          by (eapply distinct_codes_append; eauto);
        clear E ]
  end.
  eexists. split; [reflexivity | assumption].
Qed.

Lemma directions_for_trace_invariant (points : stroke) :
  exists dirs, directions_for_trace points = OK dirs /\ distinct_codes dirs.
Proof.
  unfold directions_for_trace. cbn [separate_x_y_coors_from_points bind].
  apply for_each_invariant.
  - intros dirs i Hi Hd. apply in_py_range in Hi.
    apply directions_step_invariant; [now rewrite !py_len_map | lia | assumption].
  - split; [constructor | intros a []].
Qed.


(** C7.  For every stroke the direction extractor builds a list of at most
    four codes, each of which is one of up, down, left and right and occurs
    once; and a turn of the loop that finds four codes collected leaves the
    list as it is, whatever the coordinates. *)
Theorem directions_at_most_four_distinct :
  (forall points : stroke,
      exists dirs,
        directions_for_trace points = OK dirs
        /\ (List.length dirs <= 4)%nat
        /\ NoDup dirs
        /\ (forall c, In c dirs -> c = up \/ c = down \/ c = left \/ c = right))
  /\ (forall (x_coors y_coors dirs : list Z) (i : Z),
         (4 <= List.length dirs)%nat ->
         directions_step x_coors y_coors dirs i = OK dirs).
Proof.
  split.
  - intros points.
    destruct (directions_for_trace_invariant points) as [dirs [E Hd]].
    exists dirs. split; [assumption|].
    split; [now apply distinct_codes_length|].
    destruct Hd as [Hnd Hincl]. split; [assumption|].
    intros c Hc. apply Hincl in Hc. cbn in Hc. intuition.
  - intros x_coors y_coors dirs i Hlen. unfold directions_step.
    replace (py_len dirs <? 4) with false; [reflexivity|].
    symmetry. apply Z.ltb_ge. unfold py_len. lia.
Qed.

Lemma directions_at_most_four_distinct_witness :
  (exists dirs,
      directions_for_trace [(0, 0); (1, 1); (0, 2); (-1, 1); (0, 0)] = OK dirs
      /\ (List.length dirs <= 4)%nat)
  /\ directions_step [0; 5] [0; 5] [up; right; down; left] 1
     = OK [up; right; down; left].
Proof.
  split.
  - destruct (proj1 directions_at_most_four_distinct
                [(0, 0); (1, 1); (0, 2); (-1, 1); (0, 0)])
      as [dirs [E [Hlen _]]].
    exists dirs. split; assumption.
  - apply (proj2 directions_at_most_four_distinct). cbn. lia.
Defined.

(** C8.  On the single stroke [(0,0),(1,1)] the direction extractor
    returns up followed by right. *)
Theorem directions_of_diagonal_step :
  extract_directions [(0, [(0, 0); (1, 1)])] = OK [up; right].
Proof. reflexivity. Qed.

(** ** Aspect ratio *)
















(** A vertical stroke: the width 0 is clamped to 0.01, and the ratio is
    0.01 / 5. *)
Example aspect_ratio_vertical_stroke :
  extract_aspect_ratio [(0, [(3, 0); (3, 5)])] = OK (Fin (1 # 500)).
Proof. reflexivity. Qed.

(** C10.  Duplicate Collapse turns the stroke
    [(0,0),(0,0),(2,0),(2,0),(2,3)] into [(0,0),(2,0),(2,3)], and the
    aspect ratio of the collapsed dictionary is 2/3. *)
Theorem collapse_then_aspect_ratio :
  remove_consecutive_duplicate_points
    [(0, [(0, 0); (0, 0); (2, 0); (2, 0); (2, 3)])]
  = OK [(0, [(0, 0); (2, 0); (2, 3)])]
  /\ extract_aspect_ratio [(0, [(0, 0); (2, 0); (2, 3)])] = OK (Fin (2 # 3)).
Proof. split; reflexivity. Qed.

(** ** Curvature *)

Section Curvature.

Variable np_arctan : npfloat -> npfloat.



(** Every index that the three differences read is within the stroke. *)
Lemma curvature_step_returns (x_coors y_coors : list Z)
  (curves : list npfloat) (i : Z) :
  py_len y_coors = py_len x_coors ->
  1 <= i < py_len x_coors ->
  exists curves',
    curvature_step np_arctan x_coors y_coors curves i = OK curves'.
Proof.
  intros Hlen Hi. unfold curvature_step.
  destruct (py_len x_coors >? 4) eqn:E4; [|now eexists].
  rewrite Z.gtb_ltb in E4. apply Z.ltb_lt in E4.
  destruct (i <? 2) eqn:E2; [apply Z.ltb_lt in E2 | apply Z.ltb_ge in E2].
  - destruct (delta_in_range x_coors (i + 2) i) as [dx ->]; try lia.
    destruct (delta_in_range y_coors (i + 2) i) as [dy ->]; try lia.
    cbn [bind]. destruct (negb _); now eexists.
  - destruct (i >? py_len x_coors - 3) eqn:E3; rewrite Z.gtb_ltb in E3;
      [apply Z.ltb_lt in E3 | apply Z.ltb_ge in E3].
    + destruct (delta_in_range x_coors i (i - 2)) as [dx ->]; try lia.
      destruct (delta_in_range y_coors i (i - 2)) as [dy ->]; try lia.
      cbn [bind]. destruct (negb _); now eexists.
    + destruct (delta_in_range x_coors (i + 2) (i - 2)) as [dx ->]; try lia.
      destruct (delta_in_range y_coors (i + 2) (i - 2)) as [dy ->]; try lia.
      cbn [bind]. destruct (negb _); now eexists.
Qed.

Lemma trace_curves_returns (points : stroke) :
  exists curves, trace_curves np_arctan points = OK curves.
Proof.
  unfold trace_curves. cbn [separate_x_y_coors_from_points bind].
  destruct (for_each_invariant (fun _ => True)
              (py_range 1 (py_len (map fst points)))
              (curvature_step np_arctan (map fst points) (map snd points)))
    with (s := @nil npfloat) as [curves [E _]].
  - intros s i Hi _. apply in_py_range in Hi.
    destruct (curvature_step_returns (map fst points) (map snd points) s i)
      as [s' E]; [now rewrite !py_len_map | lia | eauto].
  - exact I.
  - eauto.
Qed.





End Curvature.


(** A stroke of six points: the step at index 1 has a zero run and is
    skipped, the four slopes are 1/4, -1/4, -2/2 and -4/4, their mean is
    -1/2; beside a four-point stroke the sample's curvature is half of
    that. *)
Example curvature_of_two_strokes :
  trace_curves small_angle [(0, 0); (1, 1); (2, 3); (1, 4); (4, 1); (5, 0)]
  = OK [Fin (1 # 4); Fin (-1 # 4); Fin (-1); Fin (-1)]
  /\ extract_curvature small_angle
       [(0, [(0, 0); (1, 1); (2, 3); (1, 4); (4, 1); (5, 0)]);
        (1, [(0, 0); (1, 1); (2, 0); (3, 1)])]
     = OK (Fin (-1 # 4)).
Proof. split; vm_compute; reflexivity. Qed.

(** ** Duplicate Collapse *)

Lemma bind_OK {A B : Type} (r : result A) (k : A -> result B) (b : B) :
  bind r k = OK b -> exists a, r = OK a /\ k a = OK b.
Proof. destruct r as [a|e]; cbn; [eauto | discriminate]. Qed.

Lemma point_eqb_refl (p : point) : point_eqb p p = true.
Proof. unfold point_eqb. now rewrite !Z.eqb_refl. Qed.

Lemma point_eqb_eq (p q : point) : point_eqb p q = true <-> p = q.
Proof.
  unfold point_eqb. destruct p as [px py], q as [qx qy]. cbn.
  rewrite andb_true_iff, !Z.eqb_eq. split.
  - intros [-> ->]. reflexivity.
  - intros [= -> ->]. auto.
Qed.

Lemma nth_error_last {A : Type} (l : list A) (d : A) :
  l <> [] -> nth_error l (List.length l - 1) = Some (last l d).
Proof.
  induction l as [|a l IH]; [congruence|]. intros _.
  destruct l as [|b l]; [reflexivity|].
  replace (List.length (a :: b :: l) - 1)%nat
    with (S (List.length (b :: l) - 1)) by (cbn [List.length]; lia).
  change (nth_error (b :: l) (List.length (b :: l) - 1)
          = Some (last (b :: l) d)).
  apply IH. discriminate.
Qed.

(** [points[0]] and [points[-1]] of a stroke that has a point. *)
Lemma py_index_first {A : Type} (a : A) (l : list A) :
  py_index (a :: l) 0 = OK a.
Proof.
  destruct (py_index_in_range (a :: l) 0) as [b [E Hb]].
  - unfold py_len. cbn [List.length]. lia.
  - cbn in Hb. congruence.
Qed.

Lemma py_index_last {A : Type} (a : A) (l : list A) :
  py_index (a :: l) (-1) = OK (last (a :: l) a).
Proof.
  unfold py_index. cbn [Z.ltb Z.compare].
  replace ((0 <=? -1 + py_len (a :: l)) && (-1 + py_len (a :: l) <? py_len (a :: l)))
    with true.
  - replace (Z.to_nat (-1 + py_len (a :: l)))
      with (List.length (a :: l) - 1)%nat
      by (unfold py_len; cbn [List.length]; lia).
    rewrite (nth_error_last (a :: l) a); [reflexivity | discriminate].
  - symmetry. apply andb_true_iff.
    unfold py_len. cbn [List.length].
    split; [apply Z.leb_le | apply Z.ltb_lt]; lia.
Qed.

(** A loop whose turns append at most one element each. *)
Lemma for_each_appends {A T : Type} (xs : list A)
  (body : list T -> A -> result (list T)) :
  (forall s a, In a xs ->
     exists ext, body s a = OK (s ++ ext) /\ (List.length ext <= 1)%nat) ->
  forall s,
    exists ext, for_each xs body s = OK (s ++ ext)
                /\ (List.length ext <= List.length xs)%nat.
Proof.
  induction xs as [|a xs IH]; intros Hbody s.
  - exists []. cbn. rewrite app_nil_r. split; [reflexivity | lia].
  - destruct (Hbody s a (or_introl eq_refl)) as [e1 [E1 H1]].
    destruct (IH (fun s b Hb => Hbody s b (or_intror Hb)) (s ++ e1))
      as [e2 [E2 H2]].
    exists (e1 ++ e2). rewrite for_each_cons, E1. cbn [bind].
    rewrite E2, app_assoc. split; [reflexivity|].
    rewrite length_app. cbn [List.length]. lia.
Qed.

Lemma py_range_length (lo hi : Z) :
  List.length (py_range lo hi) = Z.to_nat (hi - lo).
Proof. unfold py_range. now rewrite length_map, length_seq. Qed.

(** What Duplicate Collapse does to a stroke that has a point: the first
    point is kept, the points up to the last but one go through the
    comparison with their predecessor, and the last point is appended
    exactly when it differs from the first. *)
Lemma points_to_keep_shape (p : point) (rest : stroke) :
  exists middle,
    points_to_keep (p :: rest)
    = OK (p :: middle
            ++ (if point_eqb p (last (p :: rest) p)
                then [] else [last (p :: rest) p]))
    /\ (List.length middle <= List.length rest - 1)%nat.
Proof.
  unfold points_to_keep. rewrite py_index_first. cbn [bind].
  destruct (for_each_appends (py_range 0 (py_len (p :: rest) - 2))
              (fun keep i =>
                 a <- py_index (p :: rest) i ;;
                 b <- py_index (p :: rest) (i + 1) ;;
                 if negb (point_eqb a b) then OK (keep ++ [b]) else OK keep))
    with (s := [p]) as [middle [E Hlen]].
  - intros s i Hi. apply in_py_range in Hi.
    destruct (py_index_in_range (p :: rest) i) as [a [-> _]]; [lia|].
    destruct (py_index_in_range (p :: rest) (i + 1)) as [b [-> _]]; [lia|].
    cbn [bind]. destruct (negb (point_eqb a b)).
    + exists [b]. split; [reflexivity | cbn; lia].
    + exists []. rewrite app_nil_r. split; [reflexivity | cbn; lia].
  - exists middle. rewrite E. cbn [bind]. rewrite py_index_last. cbn [bind].
    split.
    + destruct (point_eqb p (last (p :: rest) p)); cbn [negb app].
      * now rewrite app_nil_r.
      * reflexivity.
    + rewrite py_range_length in Hlen. unfold py_len in Hlen.
      cbn [List.length] in Hlen. lia.
Qed.

(** On a stroke that has a point, Duplicate Collapse returns a stroke that
    is no longer and starts with the same point. *)
Lemma points_to_keep_shorter (p : point) (rest : stroke) :
  exists keep,
    points_to_keep (p :: rest) = OK (p :: keep)
    /\ (List.length keep <= List.length rest)%nat.
Proof.
  destruct (points_to_keep_shape p rest) as [middle [E Hlen]].
  eexists. split; [exact E|].
  rewrite length_app. destruct rest as [|q rest].
  - cbn [last]. rewrite point_eqb_refl. cbn in *. lia.
  - destruct (point_eqb p (last (p :: q :: rest) p)); cbn in *; lia.
Qed.

Lemma points_to_keep_nonempty (points keep : stroke) :
  points_to_keep points = OK keep -> keep <> [].
Proof.
  destruct points as [|p rest].
  - unfold points_to_keep. rewrite py_index_empty. discriminate.
  - destruct (points_to_keep_shorter p rest) as [k [-> _]].
    intros [= <-]. discriminate.
Qed.

Lemma points_to_keep_single (p : point) : points_to_keep [p] = OK [p].
Proof.
  destruct (points_to_keep_shorter p []) as [keep [E Hlen]].
  destruct keep; [assumption | cbn in Hlen; lia].
Qed.

Lemma collapse_keeps_strokes_nonempty (d d' : trace_dict) :
  remove_consecutive_duplicate_points d = OK d' ->
  Forall (fun kv : Z * stroke => snd kv <> []) d'.
Proof.
  unfold remove_consecutive_duplicate_points.
  apply (for_each_preserves
           (fun nd : trace_dict => Forall (fun kv => snd kv <> []) nd));
    [|constructor].
  intros nd kv nd' _ Hnd E.
  apply bind_OK in E. destruct E as [keep [Ek [= <-]]].
  apply (dict_set_Forall (fun s : stroke => s <> [])); [|assumption].
  now apply points_to_keep_nonempty in Ek.
Qed.

(** C3.  The stroke [(0,0),(1,1),(0,0)] has no two consecutive points
    that are equal; Duplicate Collapse returns it without its last point,
    because that point equals the first. *)
Theorem collapse_drops_end_of_closed_stroke :
  remove_consecutive_duplicate_points [(0, [(0, 0); (1, 1); (0, 0)])]
  = OK [(0, [(0, 0); (1, 1)])].
Proof. reflexivity. Qed.

(** C4.  On a dictionary that holds the empty stroke, Duplicate Collapse
    raises [IndexError] at [points[0]]. *)
Theorem collapse_raises_on_empty_stroke :
  remove_consecutive_duplicate_points [(0, [])] = Raise IndexError.
Proof. reflexivity. Qed.

(** ** Spatial frequencies *)

Lemma extract_frequencies_raises (d : trace_dict) :
  d <> [] -> extract_frequencies d = Raise TypeError.
Proof. destruct d as [|kv d]; [congruence | reflexivity]. Qed.

Example extract_frequencies_empty :
  extract_frequencies [] = OK [[0; 0; 0; 0; 0]; [0; 0; 0; 0; 0]].
Proof. reflexivity. Qed.

(** C2.  On the dictionary of one stroke of one point, the frequency
    extractor raises [TypeError]: its loops iterate the keys of the
    dictionary, and the points of the key 0 cannot be enumerated. *)
Theorem extract_frequencies_single_point :
  extract_frequencies [(0, [(0, 0)])] = Raise TypeError.
Proof. reflexivity. Qed.

(** ** Stroke Smoother and the entry point *)

Section EntryPoint.

Variable str_split : string -> list string.
Variable py_int : string -> option Z.
Variable np_arctan : npfloat -> npfloat.
Variable interpolate_spline_points :
  list Z -> list Z -> Z -> result (list npfloat * list npfloat).

(** A stroke of at most one point takes none of the three fits and is
    returned as it is. *)
Lemma smooth_stroke_short (points : stroke) :
  (List.length points <= 1)%nat ->
  smooth_stroke interpolate_spline_points points = OK points.
Proof.
  destruct points as [|p [|q rest]]; cbn [List.length]; intros Hlen;
    [reflexivity | reflexivity | lia].
Qed.

Lemma smooth_stroke_nonempty (points smoothed : stroke) :
  points <> [] ->
  smooth_stroke interpolate_spline_points points = OK smoothed ->
  smoothed <> [].
Proof.
  intros Hne E. unfold smooth_stroke in E.
  cbn [separate_x_y_coors_from_points bind] in E.
  repeat (apply bind_OK in E; destruct E as [? [_ E]]).
  injection E as <-.
  match goal with
  | |- (if negb (py_len ?l =? 0) then _ else _) <> [] =>
      destruct l; [cbn; assumption | cbn; discriminate]
  end.
Qed.

Lemma smoothing_keeps_strokes_nonempty (d d' : trace_dict) :
  Forall (fun kv : Z * stroke => snd kv <> []) d ->
  smooth_points interpolate_spline_points d = OK d' ->
  Forall (fun kv : Z * stroke => snd kv <> []) d'.
Proof.
  intros Hd. unfold smooth_points.
  apply (for_each_preserves
           (fun nd : trace_dict => Forall (fun kv => snd kv <> []) nd));
    [|constructor].
  intros nd kv nd' Hin Hnd E.
  apply bind_OK in E. destruct E as [smoothed [Es [= <-]]].
  apply (dict_set_Forall (fun s : stroke => s <> [])); [|assumption].
  rewrite Forall_forall in Hd.
  exact (smooth_stroke_nonempty (snd kv) smoothed (Hd kv Hin) Es).
Qed.



(** The argument of the call at line 402 cannot be loaded. *)
Lemma frequencies_call_raises (d : trace_dict) :
  (trace_groups <- load_name [("trace_dict", d)] "trace_groups" ;;
   extract_frequencies trace_groups) = Raise NameError.
Proof. reflexivity. Qed.


(** C5.  On the empty trace dictionary nothing raises before the call at
    line 402: Duplicate Collapse and the Stroke Smoother return the empty
    dictionary, the counts are 0 and 0, the direction list is empty, the
    curvature is the mean of no contribution (NaN), and the aspect ratio is
    0.01 / 0.01 = 1. *)
Theorem empty_stroke_set_is_processed :
  remove_consecutive_duplicate_points [] = OK []
  /\ smooth_points interpolate_spline_points [] = OK []
  /\ extract_num_points_and_strokes [] = (0, 0)
  /\ extract_directions [] = OK []
  /\ extract_curvature np_arctan [] = OK NaN
  /\ extract_aspect_ratio [] = OK (Fin 1).
Proof. repeat split. Qed.

End EntryPoint.



(** For a file with no trace the aspect-ratio extractor has returned 1 and
    the curvature extractor NaN, and the failure of [extract_features] is
    the [NameError] of every other file. *)
Lemma empty_stroke_set_aspect_ratio :
  read_traces split_spaces decimal_int no_trace_file = OK []
  /\ extract_aspect_ratio [] = OK (Fin 1)
  /\ extract_curvature small_angle [] = OK NaN
  /\ extract_features split_spaces decimal_int small_angle resample_at_knots
       no_trace_file = Raise NameError.
Proof. repeat split. Qed.

(** ** Loops over a range *)

Lemma py_range_empty (lo hi : Z) : hi <= lo -> py_range lo hi = [].
Proof.
  intros H. unfold py_range. replace (Z.to_nat (hi - lo)) with 0%nat by lia.
  reflexivity.
Qed.

Lemma py_range_cons (lo hi : Z) :
  lo < hi -> py_range lo hi = lo :: py_range (lo + 1) hi.
Proof.
  intros H. unfold py_range.
  replace (Z.to_nat (hi - lo)) with (S (Z.to_nat (hi - (lo + 1)))) by lia.
  cbn [seq map]. rewrite <- seq_shift, map_map. f_equal; [lia|].
  apply map_ext. intros k. lia.
Qed.

(** An invariant that follows the index: [P i s] speaks of the state
    before the turn of index [i]. *)
Lemma for_each_range {S : Type} (P : Z -> S -> Prop)
  (body : S -> Z -> result S) (hi : Z) :
  (forall i s, i < hi -> P i s -> exists s', body s i = OK s' /\ P (i + 1) s') ->
  forall lo s, P lo s ->
    exists s', for_each (py_range lo hi) body s = OK s' /\ P (Z.max lo hi) s'.
Proof.
  intros Hbody lo s.
  remember (Z.to_nat (hi - lo)) as n eqn:En. revert lo s En.
  induction n as [|n IH]; intros lo s En Hs.
  - rewrite py_range_empty by lia. exists s.
    replace (Z.max lo hi) with lo by lia. now split.
  - rewrite py_range_cons by lia. cbn [for_each].
    destruct (Hbody lo s) as [s1 [-> Hs1]]; [lia | assumption |].
    cbn [bind].
    destruct (IH (lo + 1) s1) as [s2 [E2 Hs2]]; [lia | assumption |].
    exists s2. split; [assumption|].
    replace (Z.max lo hi) with (Z.max (lo + 1) hi) by lia. assumption.
Qed.

(** ** Duplicate Collapse, stroke by stroke *)

Lemma last_cons_default {A : Type} (a d : A) (l : list A) :
  last (a :: l) d = last l a.
Proof.
  revert a d. induction l as [|b l IH]; intros a d; [reflexivity|].
  change (last (a :: b :: l) d) with (last (b :: l) d).
  now rewrite !IH.
Qed.

Lemma collapse_run_snoc (prev q : point) (l : stroke) :
  collapse_run prev (l ++ [q])
  = collapse_run prev l ++ (if point_eqb (last l prev) q then [] else [q]).
Proof.
  revert prev. induction l as [|a l IH]; intros prev.
  - cbn. destruct (point_eqb prev q); reflexivity.
  - cbn [app collapse_run]. rewrite IH, last_cons_default.
    destruct (point_eqb prev a); reflexivity.
Qed.

Lemma firstn_snoc {A : Type} (l : list A) (n : nat) (a : A) :
  nth_error l n = Some a -> firstn (S n) l = firstn n l ++ [a].
Proof.
  revert n. induction l as [|b l IH]; intros [|n] H; try discriminate.
  - cbn in H. injection H as ->. now destruct l.
  - cbn in H. change (firstn (S (S n)) (b :: l)) with (b :: firstn (S n) l).
    rewrite (IH n H). reflexivity.
Qed.

Lemma nth_error_cons_last {A : Type} (a : A) (l : list A) (n : nat) :
  (n <= List.length l)%nat ->
  nth_error (a :: l) n = Some (last (firstn n l) a).
Proof.
  revert a n. induction l as [|b l IH]; intros a [|n] H; cbn in H;
    try reflexivity; try lia.
  change (nth_error (a :: b :: l) (S n)) with (nth_error (b :: l) n).
  rewrite IH by lia.
  change (firstn (S n) (b :: l)) with (b :: firstn n l).
  now rewrite last_cons_default.
Qed.

(** The loop of lines 306 to 308 keeps, of the points up to the last but
    one, those that differ from their predecessor. *)
Lemma collapse_loop (p : point) (rest : stroke) :
  for_each (py_range 0 (py_len (p :: rest) - 2))
    (fun keep i =>
       a <- py_index (p :: rest) i ;;
       b <- py_index (p :: rest) (i + 1) ;;
       if negb (point_eqb a b) then OK (keep ++ [b]) else OK keep)
    [p]
  = OK (p :: collapse_run p (removelast rest)).
Proof.
  destruct (for_each_range
              (fun i keep =>
                 0 <= i
                 /\ keep = p :: collapse_run p (firstn (Z.to_nat i) rest))
              (fun keep i =>
                 a <- py_index (p :: rest) i ;;
                 b <- py_index (p :: rest) (i + 1) ;;
                 if negb (point_eqb a b) then OK (keep ++ [b]) else OK keep)
              (py_len (p :: rest) - 2)) with (lo := 0) (s := [p])
    as [keep [E [_ Hkeep]]].
  - intros i keep Hi [Hi0 ->].
    assert (py_len (p :: rest) = py_len rest + 1) as Hlen
      by (unfold py_len; cbn [List.length]; lia).
    destruct (py_index_in_range (p :: rest) i) as [a [-> Ha]]; [lia|].
    destruct (py_index_in_range (p :: rest) (i + 1)) as [b [-> Hb]]; [lia|].
    cbn [bind].
    rewrite nth_error_cons_last in Ha by (unfold py_len in *; lia).
    injection Ha as <-.
    replace (Z.to_nat (i + 1)) with (S (Z.to_nat i)) in * by lia.
    cbn [nth_error] in Hb.
    rewrite (firstn_snoc rest (Z.to_nat i) b Hb), collapse_run_snoc.
    destruct (point_eqb (last (firstn (Z.to_nat i) rest) p) b); cbn [negb].
    + eexists. split; [reflexivity|]. split; [lia|]. now rewrite app_nil_r.
    + eexists. split; [reflexivity|]. split; [lia | reflexivity].
  - split; [lia | reflexivity].
  - rewrite E, Hkeep. do 3 f_equal.
    rewrite removelast_firstn_len. f_equal.
    unfold py_len. cbn [List.length]. lia.
Qed.

Lemma points_to_keep_run (p : point) (rest : stroke) :
  points_to_keep (p :: rest)
  = OK (p :: collapse_run p (removelast rest)
          ++ (if point_eqb p (last rest p) then [] else [last rest p])).
Proof.
  unfold points_to_keep. rewrite py_index_first. cbn [bind].
  rewrite collapse_loop. cbn [bind].
  rewrite py_index_last, last_cons_default. cbn [bind].
  destruct (point_eqb p (last rest p)); cbn [negb].
  - now rewrite app_nil_r.
  - reflexivity.
Qed.

(** X1.  On a stroke that has a point Duplicate Collapse returns: the
    first point; then, of the points up to the last but one, those that
    differ from their predecessor; then the last point, when it differs
    from the first. *)
Theorem collapse_is_run_then_last (p : point) (rest : stroke) :
  points_to_keep (p :: rest)
  = OK (p :: collapse_run p (removelast rest)
          ++ (if point_eqb p (last rest p) then [] else [last rest p])).
Proof. apply points_to_keep_run. Qed.

Lemma collapse_run_clean (prev : point) (l : stroke) :
  no_consecutive_duplicates prev (collapse_run prev l).
Proof.
  revert prev. induction l as [|q l IH]; intros prev; cbn; [exact I|].
  destruct (point_eqb prev q) eqn:E.
  - apply point_eqb_eq in E. subst. apply IH.
  - cbn. split; [|apply IH].
    intros ->. rewrite point_eqb_refl in E. discriminate.
Qed.

Lemma collapse_run_fixed (prev : point) (l : stroke) :
  no_consecutive_duplicates prev l -> collapse_run prev l = l.
Proof.
  revert prev. induction l as [|q l IH]; intros prev; cbn; [reflexivity|].
  intros [Hne Hl]. destruct (point_eqb prev q) eqn:E.
  - apply point_eqb_eq in E. contradiction.
  - now rewrite IH.
Qed.

Lemma no_consecutive_duplicates_removelast (prev : point) (l : stroke) :
  no_consecutive_duplicates prev l ->
  no_consecutive_duplicates prev (removelast l).
Proof.
  revert prev. induction l as [|q l IH]; intros prev; [trivial|].
  intros [Hne Hl]. destruct l as [|r l]; [exact I|].
  change (removelast (q :: r :: l)) with (q :: removelast (r :: l)).
  split; [assumption | now apply IH].
Qed.

Lemma collapse_run_incl (prev : point) (l : stroke) :
  incl (collapse_run prev l) l.
Proof.
  revert prev. induction l as [|q l IH]; intros prev; cbn; [easy|].
  destruct (point_eqb prev q).
  - apply incl_tl, IH.
  - apply incl_cons; [now left | apply incl_tl, IH].
Qed.

Lemma collapse_run_length (prev : point) (l : stroke) :
  (List.length (collapse_run prev l) <= List.length l)%nat.
Proof.
  revert prev. induction l as [|q l IH]; intros prev; cbn; [lia|].
  destruct (point_eqb prev q); cbn; specialize (IH q); lia.
Qed.

Lemma removelast_incl {A : Type} (l : list A) : incl (removelast l) l.
Proof.
  induction l as [|a l IH]; [easy|].
  destruct l as [|b l]; [intros x [] |].
  change (removelast (a :: b :: l)) with (a :: removelast (b :: l)).
  apply incl_cons; [now left | now apply incl_tl].
Qed.

Lemma last_in {A : Type} (l : list A) (d : A) : l <> [] -> In (last l d) l.
Proof.
  induction l as [|a l IH]; [congruence|]. intros _.
  destruct l as [|b l]; [now left|].
  right. apply IH. discriminate.
Qed.

(** X2.  What Duplicate Collapse returns for a stroke [p :: rest] starts
    with [p], goes on with a run in which no point equals the one before
    it, and ends with nothing or with the last point of the stroke; it is
    no longer than the stroke, and it holds points of the stroke only. *)
Theorem collapse_output_is_clean_and_shorter (p : point) (rest : stroke) :
  exists run tail,
    points_to_keep (p :: rest) = OK (p :: run ++ tail)
    /\ no_consecutive_duplicates p run
    /\ (tail = [] \/ tail = [last rest p])
    /\ (List.length (run ++ tail) <= List.length rest)%nat
    /\ incl (run ++ tail) rest.
Proof.
  exists (collapse_run p (removelast rest)),
         (if point_eqb p (last rest p) then [] else [last rest p]).
  split; [apply points_to_keep_run|].
  split; [apply collapse_run_clean|].
  split; [destruct (point_eqb p (last rest p)); auto|].
  destruct rest as [|q rest].
  - cbn. rewrite point_eqb_refl. cbn. split; [lia | easy].
  - split.
    + rewrite length_app.
      pose proof (collapse_run_length p (removelast (q :: rest))) as H.
      assert (List.length (removelast (q :: rest)) = List.length rest) as E.
      { rewrite removelast_firstn_len, length_firstn. cbn [List.length]. lia. }
      destruct (point_eqb p (last (q :: rest) p)); cbn [List.length] in *; lia.
    + apply incl_app.
      * intros x Hx. apply collapse_run_incl in Hx.
        now apply removelast_incl in Hx.
      * destruct (point_eqb p (last (q :: rest) p)); [easy|].
        intros x [<- | []]. apply last_in. discriminate.
Qed.

(** X3.  A stroke in which no point equals the one before it, and whose
    last point differs from its first (or which has a single point), is
    returned by Duplicate Collapse as it is. *)
Theorem collapse_fixes_clean_open_strokes (p : point) (rest : stroke) :
  no_consecutive_duplicates p rest ->
  rest = [] \/ p <> last rest p ->
  points_to_keep (p :: rest) = OK (p :: rest).
Proof.
  intros Hclean Hopen. rewrite points_to_keep_run.
  destruct rest as [|q rest].
  - cbn. now rewrite point_eqb_refl.
  - destruct Hopen as [|Hopen]; [discriminate|].
    rewrite collapse_run_fixed
      by now apply no_consecutive_duplicates_removelast.
    destruct (point_eqb p (last (q :: rest) p)) eqn:E.
    + apply point_eqb_eq in E. contradiction.
    + rewrite <- app_removelast_last by discriminate. reflexivity.
Qed.

Lemma collapse_fixes_clean_open_strokes_witness :
  points_to_keep [(0, 0); (2, 1); (0, 0); (3, 3)]
  = OK [(0, 0); (2, 1); (0, 0); (3, 3)].
Proof.
  apply (collapse_fixes_clean_open_strokes (0, 0) [(2, 1); (0, 0); (3, 3)]).
  - cbn. repeat split; discriminate.
  - right. cbn. discriminate.
Defined.

(** ** Loops that rebuild a dictionary key by key *)

Lemma dict_set_fresh {V : Type} (k : Z) (v : V) (d : list (Z * V)) :
  ~ In k (map fst d) -> dict_set k v d = d ++ [(k, v)].
Proof.
  induction d as [|[k' v'] d IH]; cbn; intros H; [reflexivity|].
  destruct (Z.eqb_spec k' k) as [->|Hne]; [tauto|].
  rewrite IH; tauto.
Qed.

(** With distinct keys, a loop [new[k] = f(v)] returns the values of [f]
    under the same keys in the same order, provided [f] returns on each. *)
Lemma dict_loop_returns {V W : Type} (f : V -> result W)
  (d : list (Z * V)) (acc : list (Z * W)) :
  NoDup (map fst acc ++ map fst d) ->
  (forall kv, In kv d -> exists w, f (snd kv) = OK w) ->
  exists ws,
    Forall2 (fun kv w => f (snd kv) = OK w) d ws
    /\ for_each d
         (fun nd (kv : Z * V) =>
            w <- f (snd kv) ;; OK (dict_set (fst kv) w nd))
         acc = OK (acc ++ combine (map fst d) ws).
Proof.
  revert acc. induction d as [|kv d IH]; intros acc Hnd Hf.
  - exists []. split; [constructor | cbn; now rewrite app_nil_r].
  - destruct (Hf kv (or_introl eq_refl)) as [w Ew].
    cbn [map] in Hnd.
    destruct (IH (acc ++ [(fst kv, w)])) as [ws [Hws E]].
    + rewrite map_app. cbn [map fst]. rewrite <- app_assoc. exact Hnd.
    + intros kv' Hin. apply Hf. now right.
    + exists (w :: ws). split; [now constructor|].
      rewrite for_each_cons. cbv beta. rewrite Ew. cbn [bind].
      rewrite dict_set_fresh.
      * rewrite E, <- app_assoc. reflexivity.
      * apply NoDup_remove_2 in Hnd. intros Hin. apply Hnd.
        apply in_or_app. now left.
Qed.

(** Such a loop raises what [f] raises on the first value it fails on. *)
Lemma dict_loop_raises {V W : Type} (f : V -> result W) (e : exn)
  (d : list (Z * V)) (acc : list (Z * W)) :
  Exists (fun kv => f (snd kv) = Raise e) d ->
  Forall (fun kv => (exists w, f (snd kv) = OK w) \/ f (snd kv) = Raise e) d ->
  for_each d
    (fun nd (kv : Z * V) => w <- f (snd kv) ;; OK (dict_set (fst kv) w nd))
    acc = Raise e.
Proof.
  revert acc. induction d as [|kv d IH]; intros acc Hex Hall.
  - inversion Hex.
  - rewrite for_each_cons. cbv beta.
    inversion Hall as [|? ? Hkv Hall']; subst.
    destruct Hkv as [[w Ew] | Ee].
    + rewrite Ew. cbn [bind]. apply IH; [|assumption].
      inversion Hex as [? ? H | ? ? H]; subst; [congruence | assumption].
    + rewrite Ee. reflexivity.
Qed.

Lemma Forall2_combine_fst {A B C : Type} (P : A * B -> C -> Prop)
  (d : list (A * B)) (ws : list C) :
  Forall2 P d ws -> map fst (combine (map fst d) ws) = map fst d.
Proof.
  induction 1 as [|kv w d ws _ _ IH]; cbn; [reflexivity | now rewrite IH].
Qed.

Lemma points_to_keep_all_or_index_error (d : trace_dict) :
  Forall (fun kv : Z * stroke =>
            (exists w, points_to_keep (snd kv) = OK w)
            \/ points_to_keep (snd kv) = Raise IndexError) d.
Proof.
  apply Forall_forall. intros [k [|p rest]] _; cbn [snd].
  - right. reflexivity.
  - left. eexists. apply points_to_keep_run.
Qed.

(** X4.  On a dictionary with distinct ids and no empty stroke, Duplicate
    Collapse returns a dictionary with the same ids in the same order,
    each stroke being the collapse of the stroke under that id.  As soon
    as one stroke is empty it raises [IndexError]. *)
Theorem collapse_keeps_ids_or_raises (d : trace_dict) :
  (NoDup (map fst d) ->
   Forall (fun kv : Z * stroke => snd kv <> []) d ->
   exists d',
     remove_consecutive_duplicate_points d = OK d'
     /\ map fst d' = map fst d
     /\ Forall2 (fun kv kv' : Z * stroke =>
                   points_to_keep (snd kv) = OK (snd kv')) d d')
  /\ (Exists (fun kv : Z * stroke => snd kv = []) d ->
      remove_consecutive_duplicate_points d = Raise IndexError).
Proof.
  split.
  - intros Hnd Hne.
    destruct (dict_loop_returns points_to_keep d []) as [ws [Hws E]].
    + exact Hnd.
    + intros [k [|p rest]] Hin.
      * rewrite Forall_forall in Hne. now specialize (Hne _ Hin).
      * eexists. apply points_to_keep_run.
    + exists (combine (map fst d) ws).
      split; [exact E|]. split; [exact (Forall2_combine_fst _ d ws Hws)|].
      clear E Hnd Hne. induction Hws; cbn; constructor; auto.
  - intros Hex. apply dict_loop_raises.
    + apply Exists_exists in Hex. destruct Hex as [kv [Hin Hkv]].
      apply Exists_exists. exists kv. split; [assumption|].
      rewrite Hkv. reflexivity.
    + apply points_to_keep_all_or_index_error.
Qed.

Lemma collapse_keeps_ids_or_raises_witness :
  (exists d',
      remove_consecutive_duplicate_points
        [(0, [(0, 0); (0, 0); (1, 2)]); (1, [(5, 5)])] = OK d'
      /\ map fst d' = [0; 1])
  /\ remove_consecutive_duplicate_points [(0, [(1, 1)]); (1, [])]
     = Raise IndexError.
Proof.
  split.
  - destruct (proj1 (collapse_keeps_ids_or_raises
                       [(0, [(0, 0); (0, 0); (1, 2)]); (1, [(5, 5)])]))
      as [d' [E [Hk _]]].
    + repeat constructor; cbn; intuition discriminate.
    + repeat constructor; discriminate.
    + exists d'. split; assumption.
  - apply (proj2 (collapse_keeps_ids_or_raises [(0, [(1, 1)]); (1, [])])).
    apply Exists_cons_tl, Exists_cons_hd. reflexivity.
Defined.

(** ** Counts *)

Lemma num_points_from (d : trace_dict) (a : Z) :
  fold_left (fun n (kv : Z * stroke) => n + py_len (snd kv)) d a
  = a + fold_left (fun n (kv : Z * stroke) => n + py_len (snd kv)) d 0.
Proof.
  revert a. induction d as [|kv d IH]; intros a; cbn [fold_left]; [lia|].
  rewrite (IH (a + py_len (snd kv))), (IH (0 + py_len (snd kv))). lia.
Qed.

Lemma num_points_cons (kv : Z * stroke) (d : trace_dict) :
  fst (extract_num_points_and_strokes (kv :: d))
  = py_len (snd kv) + fst (extract_num_points_and_strokes d).
Proof.
  unfold extract_num_points_and_strokes. cbn [fst fold_left].
  rewrite num_points_from. lia.
Qed.

Lemma strokes_nonempty_or_not (d : trace_dict) :
  Forall (fun kv : Z * stroke => snd kv <> []) d
  \/ Exists (fun kv : Z * stroke => snd kv = []) d.
Proof.
  induction d as [|[k pts] d [IH|IH]].
  - left. constructor.
  - destruct pts as [|p rest].
    + right. now constructor.
    + left. constructor; [discriminate | assumption].
  - right. now apply Exists_cons_tl.
Qed.

Lemma collapsed_counts (d d' : trace_dict) :
  Forall2 (fun kv kv' : Z * stroke =>
             points_to_keep (snd kv) = OK (snd kv')) d d' ->
  snd (extract_num_points_and_strokes d')
  = snd (extract_num_points_and_strokes d)
  /\ snd (extract_num_points_and_strokes d')
     <= fst (extract_num_points_and_strokes d')
     <= fst (extract_num_points_and_strokes d).
Proof.
  induction 1 as [|kv kv' d d' Hkv _ IH].
  - cbn. lia.
  - rewrite !num_points_cons.
    assert (1 <= py_len (snd kv') <= py_len (snd kv)) as Hlen.
    { destruct (snd kv) as [|p rest].
      - unfold points_to_keep in Hkv. rewrite py_index_empty in Hkv.
        discriminate.
      - destruct (points_to_keep_shorter p rest) as [keep [E Hk]].
        rewrite E in Hkv. injection Hkv as <-.
        unfold py_len. cbn [List.length]. lia. }
    unfold extract_num_points_and_strokes in *. cbn [snd fst] in *.
    unfold py_len in *. cbn [List.length] in *. lia.
Qed.

(** X5.  When Duplicate Collapse returns on a dictionary with distinct
    ids, the number of strokes is what it was, the number of points has
    not grown, and every stroke still has a point: there are at least as
    many points as strokes. *)
Theorem collapse_keeps_stroke_count (d d' : trace_dict) :
  NoDup (map fst d) ->
  remove_consecutive_duplicate_points d = OK d' ->
  snd (extract_num_points_and_strokes d')
  = snd (extract_num_points_and_strokes d)
  /\ snd (extract_num_points_and_strokes d')
     <= fst (extract_num_points_and_strokes d')
     <= fst (extract_num_points_and_strokes d).
Proof.
  intros Hnd E. destruct (strokes_nonempty_or_not d) as [Hne|Hex].
  - destruct (dict_loop_returns points_to_keep d []) as [ws [Hws E']].
    + exact Hnd.
    + intros [k [|p rest]] Hin.
      * rewrite Forall_forall in Hne. now specialize (Hne _ Hin).
      * eexists. apply points_to_keep_run.
    + unfold remove_consecutive_duplicate_points in E.
      rewrite E' in E. injection E as <-.
      apply collapsed_counts.
      clear E' Hnd Hne. induction Hws; cbn; constructor; auto.
  - unfold remove_consecutive_duplicate_points in E.
    rewrite (dict_loop_raises points_to_keep IndexError) in E.
    + discriminate.
    + apply Exists_exists in Hex. destruct Hex as [kv [Hin Hkv]].
      apply Exists_exists. exists kv. split; [assumption|].
      rewrite Hkv. reflexivity.
    + apply points_to_keep_all_or_index_error.
Qed.

Lemma collapse_keeps_stroke_count_witness :
  snd (extract_num_points_and_strokes [(0, [(0, 0); (1, 2)]); (1, [(5, 5)])])
  = snd (extract_num_points_and_strokes
           [(0, [(0, 0); (0, 0); (1, 2)]); (1, [(5, 5); (5, 5)])])
  /\ snd (extract_num_points_and_strokes [(0, [(0, 0); (1, 2)]); (1, [(5, 5)])])
     <= fst (extract_num_points_and_strokes
               [(0, [(0, 0); (1, 2)]); (1, [(5, 5)])])
     <= fst (extract_num_points_and_strokes
               [(0, [(0, 0); (0, 0); (1, 2)]); (1, [(5, 5); (5, 5)])]).
Proof.
  apply (collapse_keeps_stroke_count
           [(0, [(0, 0); (0, 0); (1, 2)]); (1, [(5, 5); (5, 5)])]
           [(0, [(0, 0); (1, 2)]); (1, [(5, 5)])]).
  - repeat constructor; cbn; intuition discriminate.
  - reflexivity.
Defined.

(** ** Directions, as the steps of the stroke *)

Lemma first_seen_known (code : Z) (dirs : list Z) (moved : bool) :
  first_seen code dirs (OK moved) = OK (negb (py_in code dirs) && moved).
Proof. unfold first_seen. now destruct (negb (py_in code dirs)). Qed.

Lemma py_in_true (x : Z) (l : list Z) : py_in x l = true -> In x l.
Proof.
  unfold py_in. intros H. apply existsb_exists in H.
  destruct H as [y [Hy E]]. apply Z.eqb_eq in E. now subst.
Qed.

Lemma seen_after_keeps (code : Z) (moved : bool) (dirs : list Z) (c : Z) :
  In c dirs -> In c (seen_after code moved dirs).
Proof.
  intros H. unfold seen_after.
  destruct (negb (py_in code dirs) && moved); [|assumption].
  apply in_or_app. now left.
Qed.

Lemma seen_after_adds (code : Z) (moved : bool) (dirs : list Z) :
  moved = true -> In code (seen_after code moved dirs).
Proof.
  intros ->. unfold seen_after. destruct (py_in code dirs) eqn:E; cbn.
  - now apply py_in_true.
  - apply in_or_app. right. now left.
Qed.

Lemma seen_after_only (code : Z) (moved : bool) (dirs : list Z) (c : Z) :
  In c (seen_after code moved dirs) ->
  In c dirs \/ (c = code /\ moved = true).
Proof.
  unfold seen_after. destruct (negb (py_in code dirs) && moved) eqn:E.
  - intros H. apply in_app_or in H. destruct H as [H | [<- | []]]; [now left|].
    right. apply andb_true_iff in E. tauto.
  - now left.
Qed.

Lemma py_index_map {A : Type} (f : A -> Z) (l : list A) (i : Z) (a : A) :
  0 <= i -> nth_error l (Z.to_nat i) = Some a ->
  py_index (map f l) i = OK (f a).
Proof.
  intros Hi Ha.
  destruct (py_index_in_range (map f l) i) as [b [E Hb]].
  - rewrite py_len_map. unfold py_len.
    assert (Z.to_nat i < List.length l)%nat
      by (apply nth_error_Some; congruence).
    lia.
  - rewrite nth_error_map, Ha in Hb. cbn in Hb. congruence.
Qed.

(** The turn of index [i] on the two points [p] and [q] it compares. *)
Lemma directions_step_on (points : stroke) (dirs : list Z) (i : Z)
  (p q : point) :
  1 <= i ->
  nth_error points (Z.to_nat (i - 1)) = Some p ->
  nth_error points (Z.to_nat i) = Some q ->
  directions_step (map fst points) (map snd points) dirs i
  = OK (if py_len dirs <? 4
        then seen_after right (fst q - fst p >? 0)
               (seen_after left (fst q - fst p <? 0)
                  (seen_after down (snd q - snd p <? 0)
                     (seen_after up (snd q - snd p >? 0) dirs)))
        else dirs).
Proof.
  intros Hi Hp Hq. unfold directions_step, delta.
  destruct (py_len dirs <? 4); [|reflexivity].
  rewrite !(py_index_map fst points i q), !(py_index_map fst points (i - 1) p),
    !(py_index_map snd points i q), !(py_index_map snd points (i - 1) p)
    by (assumption || lia).
  cbn [bind]. rewrite first_seen_known. cbn [bind].
  fold (seen_after up (snd q - snd p >? 0) dirs).
  rewrite first_seen_known. cbn [bind].
  fold (seen_after down (snd q - snd p <? 0)
          (seen_after up (snd q - snd p >? 0) dirs)).
  rewrite first_seen_known. cbn [bind].
  fold (seen_after left (fst q - fst p <? 0)
          (seen_after down (snd q - snd p <? 0)
             (seen_after up (snd q - snd p >? 0) dirs))).
  rewrite first_seen_known. cbn [bind].
  reflexivity.
Qed.

Lemma moves_code (code : Z) (p q : point) :
  moves code p q -> In code direction_codes.
Proof. unfold moves. cbn. intuition. Qed.

Lemma distinct_codes_full (dirs : list Z) (c : Z) :
  distinct_codes dirs -> (4 <= List.length dirs)%nat ->
  In c direction_codes -> In c dirs.
Proof.
  intros [Hnd Hincl] Hlen Hc.
  exact (NoDup_length_incl (l' := direction_codes) Hnd Hlen Hincl c Hc).
Qed.

Lemma moves_tests (code : Z) (p q : point) :
  moves code p q <->
  (code = up /\ (snd q - snd p >? 0) = true)
  \/ (code = down /\ (snd q - snd p <? 0) = true)
  \/ (code = left /\ (fst q - fst p <? 0) = true)
  \/ (code = right /\ (fst q - fst p >? 0) = true).
Proof.
  unfold moves. rewrite !Z.gtb_ltb, !Z.ltb_lt.
  split; intros H; intuition lia.
Qed.

Lemma codes_of_steps_next (points : stroke) (i : Z) (dirs : list Z) :
  i < py_len points ->
  codes_of_steps points i dirs ->
  exists dirs',
    directions_step (map fst points) (map snd points) dirs i = OK dirs'
    /\ codes_of_steps points (i + 1) dirs'.
Proof.
  intros Hi (Hi1 & Hd & Hsound & Hcomplete).
  destruct (directions_step_invariant (map fst points) (map snd points) dirs i)
    as [dirs' [E Hd']];
    [ now rewrite !py_len_map
    | rewrite py_len_map; unfold py_len, stroke, point in *; lia
    | assumption |].
  exists dirs'. split; [assumption|].
  destruct (nth_error points (Z.to_nat (i - 1))) as [p|] eqn:Ep;
    [|apply nth_error_None in Ep; unfold py_len, stroke, point in *; lia].
  destruct (nth_error points (Z.to_nat i)) as [q|] eqn:Eq;
    [|apply nth_error_None in Eq; unfold py_len, stroke, point in *; lia].
  rewrite (directions_step_on points dirs i p q Hi1 Ep Eq) in E.
  injection E as E.
  split; [lia|]. split; [assumption|].
  destruct (py_len dirs <? 4) eqn:E4; subst dirs'.
  - split.
    + intros c Hc.
      assert (In c dirs \/ moves c p q) as [Hold | Hnew].
      { rewrite moves_tests.
        repeat (apply seen_after_only in Hc; destruct Hc as [Hc | [-> Hc]];
                [|now auto 6]).
        now left. }
      * destruct (Hsound c Hold) as [j [Hj Hm]]. exists j. split; [lia | exact Hm].
      * exists i. split; [lia|]. now exists p, q.
    + intros c j Hj Hm.
      assert (j < i \/ j = i) as [Hlt | ->] by lia.
      * repeat apply seen_after_keeps. apply (Hcomplete c j); [lia | exact Hm].
      * destruct Hm as (p' & q' & Ep' & Eq' & Hm).
        rewrite Ep in Ep'. rewrite Eq in Eq'.
        injection Ep' as <-. injection Eq' as <-.
        apply moves_tests in Hm.
        destruct Hm as [[-> Hm] | [[-> Hm] | [[-> Hm] | [-> Hm]]]].
        -- do 3 apply seen_after_keeps. now apply seen_after_adds.
        -- do 2 apply seen_after_keeps. now apply seen_after_adds.
        -- apply seen_after_keeps. now apply seen_after_adds.
        -- now apply seen_after_adds.
  - apply Z.ltb_ge in E4. split.
    + intros c Hc. destruct (Hsound c Hc) as [j [Hj Hm]].
      exists j. split; [lia | exact Hm].
    + intros c j Hj Hm. apply distinct_codes_full; [assumption | |].
      * unfold py_len in E4. lia.
      * destruct Hm as (p' & q' & _ & _ & Hm). exact (moves_code c p' q' Hm).
Qed.

Lemma moves_at_iff_some_step (points : stroke) (code : Z) :
  (exists j, 1 <= j < Z.max 1 (py_len points) /\ moves_at points j code)
  <-> some_step_moves code points.
Proof.
  split.
  - intros (j & Hj & p & q & Ep & Eq & Hm).
    destruct (nth_error_split points (Z.to_nat (j - 1)) Ep)
      as (before & l2 & -> & Hlen).
    replace (Z.to_nat j) with (List.length before + 1)%nat in Eq by lia.
    rewrite nth_error_app2 in Eq by lia.
    replace (List.length before + 1 - List.length before)%nat with 1%nat
      in Eq by lia.
    destruct l2 as [|q' after]; [discriminate|].
    cbn in Eq. injection Eq as ->.
    now exists before, p, q, after.
  - intros (before & p & q & after & -> & Hm).
    exists (Z.of_nat (List.length before) + 1).
    assert (py_len (before ++ p :: q :: after)
            = Z.of_nat (List.length before) + 2 + Z.of_nat (List.length after))
      as Hlen.
    { unfold py_len. rewrite length_app. cbn [List.length]. lia. }
    split; [lia|]. exists p, q.
    replace (Z.to_nat (Z.of_nat (List.length before) + 1 - 1))
      with (List.length before + 0)%nat by lia.
    replace (Z.to_nat (Z.of_nat (List.length before) + 1))
      with (List.length before + 1)%nat by lia.
    rewrite !nth_error_app2 by lia.
    replace (List.length before + 0 - List.length before)%nat with 0%nat by lia.
    replace (List.length before + 1 - List.length before)%nat with 1%nat by lia.
    now repeat split.
Qed.

Lemma directions_for_trace_steps (points : stroke) :
  exists dirs,
    directions_for_trace points = OK dirs
    /\ forall code, In code dirs <-> some_step_moves code points.
Proof.
  unfold directions_for_trace. cbn [separate_x_y_coors_from_points bind].
  rewrite py_len_map.
  destruct (for_each_range (codes_of_steps points)
              (directions_step (map fst points) (map snd points))
              (py_len points)) with (lo := 1) (s := @nil Z)
    as [dirs [E (_ & _ & Hsound & Hcomplete)]].
  - intros i s Hi Hs. now apply codes_of_steps_next.
  - split; [lia|]. split; [split; [constructor | intros a []]|].
    split; [intros c [] | intros c j Hj; lia].
  - exists dirs. split; [assumption|].
    intros code. rewrite <- moves_at_iff_some_step. split.
    + apply Hsound.
    + intros [j [Hj Hm]]. now apply (Hcomplete code j).
Qed.

(** X6.  The direction list of a stroke holds a code exactly when two
    consecutive points of the stroke make a step that way: up when y
    grows, down when it decreases, left when x decreases, right when it
    grows.  The cap at four codes loses nothing. *)
Theorem directions_are_the_steps_made (points : stroke) :
  exists dirs,
    directions_for_trace points = OK dirs
    /\ forall code, In code dirs <-> some_step_moves code points.
Proof. apply directions_for_trace_steps. Qed.

Lemma directions_loop (d : trace_dict) (acc : list Z) :
  exists per_stroke,
    Forall2 (fun (kv : Z * stroke) dirs =>
               directions_for_trace (snd kv) = OK dirs) d per_stroke
    /\ for_each d
         (fun directions (kv : Z * stroke) =>
            dirs <- directions_for_trace (snd kv) ;;
            OK (directions ++ dirs))
         acc = OK (acc ++ List.concat per_stroke)
    /\ (List.length (List.concat per_stroke) <= 4 * List.length d)%nat.
Proof.
  revert acc. induction d as [|kv d IH]; intros acc.
  - exists []. cbn. rewrite app_nil_r. repeat split; [constructor | lia].
  - destruct (directions_for_trace_invariant (snd kv)) as [dirs [E Hd]].
    apply distinct_codes_length in Hd.
    destruct (IH (acc ++ dirs)) as (ps & Hps & Eps & Hlen).
    exists (dirs :: ps). split; [now constructor|]. split.
    + rewrite for_each_cons. cbv beta. rewrite E. cbn [bind].
      rewrite Eps. cbn [List.concat]. now rewrite app_assoc.
    + cbn [List.concat List.length]. rewrite length_app. lia.
Qed.

(** X7.  The directions of a sample are the direction lists of its
    strokes, one after the other in the order of the dictionary; there are
    at most four per stroke. *)
Theorem directions_concatenate_strokes (d : trace_dict) :
  exists per_stroke,
    Forall2 (fun (kv : Z * stroke) dirs =>
               directions_for_trace (snd kv) = OK dirs) d per_stroke
    /\ extract_directions d = OK (List.concat per_stroke)
    /\ (List.length (List.concat per_stroke) <= 4 * List.length d)%nat.
Proof.
  destruct (directions_loop d []) as (ps & Hps & E & Hlen).
  exists ps. repeat split; assumption.
Qed.

(** ** Aspect ratio, as the bounding box *)























(** ** Moving the drawing *)



Lemma fst_shift (dx dy : Z) (pts : list point) :
  map fst (map (shift dx dy) pts) = map (fun z => z + dx) (map fst pts).
Proof. rewrite !map_map. reflexivity. Qed.

Lemma snd_shift (dx dy : Z) (pts : list point) :
  map snd (map (shift dx dy) pts) = map (fun z => z + dy) (map snd pts).
Proof. rewrite !map_map. reflexivity. Qed.






Lemma py_index_map_any {A B : Type} (f : A -> B) (l : list A) (i : Z) :
  py_index (map f l) i
  = match py_index l i with OK a => OK (f a) | Raise e => Raise e end.
Proof.
  unfold py_index. rewrite py_len_map, nth_error_map.
  destruct ((0 <=? (if i <? 0 then i + py_len l else i))
            && ((if i <? 0 then i + py_len l else i) <? py_len l));
    [|reflexivity].
  now destruct (nth_error l _).
Qed.

Lemma delta_shift (k : Z) (l : list Z) (i j : Z) :
  delta (map (fun z => z + k) l) i j = delta l i j.
Proof.
  unfold delta. rewrite !py_index_map_any.
  destruct (py_index l i) as [a|e]; [|reflexivity].
  destruct (py_index l j) as [b|e]; [|reflexivity].
  cbn. f_equal. lia.
Qed.

Lemma for_each_ext {A S : Type} (xs : list A)
  (body body' : S -> A -> result S) :
  (forall s a, body s a = body' s a) ->
  forall s, for_each xs body s = for_each xs body' s.
Proof.
  intros H. induction xs as [|a xs IH]; intros s; cbn; [reflexivity|].
  rewrite H. destruct (body' s a); cbn; [apply IH | reflexivity].
Qed.

Lemma for_each_map {A B S : Type} (g : A -> B) (xs : list A)
  (body : S -> B -> result S) (s : S) :
  for_each (map g xs) body s = for_each xs (fun s a => body s (g a)) s.
Proof.
  revert s. induction xs as [|a xs IH]; intros s; cbn; [reflexivity|].
  destruct (body s (g a)); cbn; [apply IH | reflexivity].
Qed.

Lemma directions_for_trace_shift (dx dy : Z) (points : stroke) :
  directions_for_trace (map (shift dx dy) points)
  = directions_for_trace points.
Proof.
  unfold directions_for_trace. cbn [separate_x_y_coors_from_points bind].
  rewrite fst_shift, snd_shift, !py_len_map.
  apply for_each_ext. intros dirs i.
  unfold directions_step. now rewrite !delta_shift.
Qed.

Section MovedCurvature.

Variable np_arctan : npfloat -> npfloat.

Lemma stroke_curvature_shift (dx dy : Z) (points : stroke) :
  stroke_curvature np_arctan (map (shift dx dy) points)
  = stroke_curvature np_arctan points.
Proof.
  unfold stroke_curvature, trace_curves.
  cbn [separate_x_y_coors_from_points bind].
  rewrite fst_shift, snd_shift, !py_len_map.
  rewrite (for_each_ext _
             (curvature_step np_arctan (map (fun z => z + dx) (map fst points))
                (map (fun z => z + dy) (map snd points)))
             (curvature_step np_arctan (map fst points) (map snd points)));
    [reflexivity|].
  intros curves i. unfold curvature_step.
  now rewrite !py_len_map, !delta_shift.
Qed.

(** X11.  Neither the directions nor the curvature depend on where the
    drawing lies: moving every point by the same [(dx, dy)] leaves both
    results as they were. *)
Theorem directions_and_curvature_translation_invariant (dx dy : Z)
  (d : trace_dict) :
  extract_directions (translate dx dy d) = extract_directions d
  /\ extract_curvature np_arctan (translate dx dy d)
     = extract_curvature np_arctan d.
Proof.
  unfold extract_directions, extract_curvature, translate.
  rewrite !for_each_map. cbn [snd]. split.
  - apply for_each_ext. intros s kv.
    now rewrite <- (directions_for_trace_shift dx dy (snd kv)).
  - erewrite for_each_ext; [reflexivity|].
    intros s kv. cbv beta.
    now rewrite <- (stroke_curvature_shift dx dy (snd kv)).
Qed.

Lemma delta_constant (c : Z) (l : list Z) (i j : Z) (d : Z) :
  (forall z, In z l -> z = c) -> delta l i j = OK d -> d = 0.
Proof.
  intros Hc. unfold delta. intros E.
  apply bind_OK in E. destruct E as [a [Ea E]].
  apply bind_OK in E. destruct E as [b [Eb [= <-]]].
  assert (forall k v, py_index l k = OK v -> In v l) as Hin.
  { intros k v. unfold py_index.
    destruct ((0 <=? _) && _); [|discriminate].
    destruct (nth_error l _) eqn:En; [|discriminate].
    intros [= <-]. now apply nth_error_In in En. }
  rewrite (Hc a (Hin _ _ Ea)), (Hc b (Hin _ _ Eb)). lia.
Qed.

Lemma curvature_step_vertical (c : Z) (x_coors y_coors : list Z)
  (curves curves' : list npfloat) (i : Z) :
  (forall z, In z x_coors -> z = c) ->
  curvature_step np_arctan x_coors y_coors curves i = OK curves' ->
  curves' = curves.
Proof.
  intros Hc. unfold curvature_step.
  destruct (py_len x_coors >? 4); [|now intros [= <-]].
  intros E. apply bind_OK in E. destruct E as [[delta_x delta_y] [Ed E]].
  assert (delta_x = of_Z 0) as ->.
  { destruct (i <? 2); [|destruct (i >? py_len x_coors - 3)];
      apply bind_OK in Ed; destruct Ed as [dx [Edx Ed]];
      apply bind_OK in Ed; destruct Ed as [dy [Edy [= <- _]]];
      now rewrite (delta_constant c x_coors _ _ dx Hc Edx). }
  cbn in E. now injection E as <-.
Qed.

(** X12.  A stroke whose points all have the same x, however many they
    are, contributes exactly 0 to the curvature: every slope has a zero
    run and is skipped. *)
Theorem vertical_stroke_has_no_curvature (c : Z) (points : stroke) :
  (forall p, In p points -> fst p = c) ->
  stroke_curvature np_arctan points = OK (Fin 0).
Proof.
  intros Hc. unfold stroke_curvature.
  destruct (trace_curves_returns np_arctan points) as [curves E].
  rewrite E. cbn [bind].
  assert (curves = []) as ->; [|reflexivity].
  revert E. unfold trace_curves. cbn [separate_x_y_coors_from_points bind].
  apply (for_each_preserves (fun s : list npfloat => s = []));
    [|reflexivity].
  intros s i s' _ -> Hstep.
  apply (curvature_step_vertical c) in Hstep; [assumption|].
  intros z Hz. apply in_map_iff in Hz. destruct Hz as [p [<- Hp]].
  now apply Hc.
Qed.

End MovedCurvature.

Lemma vertical_stroke_has_no_curvature_witness :
  stroke_curvature small_angle
    [(2, 0); (2, 1); (2, 3); (2, 4); (2, 9); (2, 11)] = OK (Fin 0).
Proof.
  apply (vertical_stroke_has_no_curvature small_angle 2).
  cbn. intros p H.
  repeat (destruct H as [<- | H]; [reflexivity|]). contradiction.
Defined.

(** ** Stroke Smoother, stroke by stroke *)

Lemma dict_loop_all_return {V W : Type} (f : V -> result W)
  (d : list (Z * V)) (acc r : list (Z * W)) :
  for_each d
    (fun nd (kv : Z * V) => w <- f (snd kv) ;; OK (dict_set (fst kv) w nd))
    acc = OK r ->
  forall kv, In kv d -> exists w, f (snd kv) = OK w.
Proof.
  revert acc. induction d as [|kv d IH]; intros acc E kv' Hin; [easy|].
  rewrite for_each_cons in E. cbv beta in E.
  destruct (f (snd kv)) as [w|e] eqn:Ef; cbn [bind] in E; [|discriminate].
  destruct Hin as [<- | Hin]; [eauto | exact (IH _ E kv' Hin)].
Qed.

Lemma bind_ret {A B : Type} (a : A) (k : A -> result B) :
  bind (OK a) k = k a.
Proof. reflexivity. Qed.

Section Smoother.

Variable interpolate_spline_points :
  list Z -> list Z -> Z -> result (list npfloat * list npfloat).

(** The loop of lines 364 and 365 on coordinates that are all finite. *)
Lemma truncation_loop (xys : list (npfloat * npfloat))
  (acc : list (Z * Z)) :
  Forall (fun xy => finite (fst xy) /\ finite (snd xy)) xys ->
  exists new_points,
    for_each xys
      (fun new_points (xy : npfloat * npfloat) =>
         new_x <- int_of_float (fst xy) ;;
         new_y <- int_of_float (snd xy) ;;
         OK (new_points ++ [(new_x, new_y)]))
      acc = OK (acc ++ new_points)
    /\ Forall2 (fun xy (p : Z * Z) =>
                  int_of_float (fst xy) = OK (fst p)
                  /\ int_of_float (snd xy) = OK (snd p)) xys new_points.
Proof.
  revert acc. induction xys as [|xy xys IH]; intros acc Hfin.
  - exists []. cbn. rewrite app_nil_r. split; [reflexivity | constructor].
  - inversion Hfin as [|? ? [[qx Ex] [qy Ey]] Hfin']; subst.
    destruct (IH (acc ++ [(Qnum qx ÷ Zpos (Qden qx), Qnum qy ÷ Zpos (Qden qy))])
                Hfin') as [ps [E Hps]].
    exists ((Qnum qx ÷ Zpos (Qden qx), Qnum qy ÷ Zpos (Qden qy)) :: ps).
    split.
    + rewrite for_each_cons. cbv beta. rewrite Ex, Ey.
      unfold int_of_float at 1 2. rewrite !bind_ret.
      rewrite E, <- app_assoc. reflexivity.
    + constructor; [|assumption]. rewrite Ex, Ey. now split.
Qed.

(** The three tests of lines 358 to 363 select one degree. *)
Lemma spline_degree (points : stroke) :
  (2 <= List.length points)%nat ->
  smooth_stroke interpolate_spline_points points
  = (new_coors <-
       interpolate_spline_points (map fst points) (map snd points)
         (Z.min (py_len points - 1) 3) ;;
     new_points <-
       for_each (combine (fst new_coors) (snd new_coors))
         (fun new_points (xy : npfloat * npfloat) =>
            new_x <- int_of_float (fst xy) ;;
            new_y <- int_of_float (snd xy) ;;
            OK (new_points ++ [(new_x, new_y)]))
         [] ;;
     OK (if negb (py_len new_points =? 0) then new_points else points)).
Proof.
  intros Hlen. unfold smooth_stroke.
  cbn [separate_x_y_coors_from_points bind].
  assert (py_len points = py_len (map fst points)) as Hn
    by (symmetry; apply py_len_map).
  assert (2 <= py_len points) as H2 by (unfold py_len; lia).
  rewrite Hn in *. generalize dependent (py_len (map fst points)).
  intros n _ H2.
  destruct (Z.eqb_spec n 2) as [->|Hn2].
  - cbn. now destruct (interpolate_spline_points _ _ _).
  - rewrite bind_ret. destruct (Z.eqb_spec n 3) as [->|Hn3].
    + cbn. now destruct (interpolate_spline_points _ _ _).
    + rewrite bind_ret.
      replace (n >? 3) with true
        by (symmetry; rewrite Z.gtb_ltb; apply Z.ltb_lt; lia).
      replace (Z.min (n - 1) 3) with 3 by lia.
      reflexivity.
Qed.

(** X13.  For a stroke of two points or more the spline routine is asked
    for one fit, of degree 1 for two points, 2 for three and 3 beyond.  An
    exception of the routine is the exception of the smoother.  When the
    routine returns finite coordinates, the smoothed stroke holds one
    point per pair of coordinates, each truncated to an integer, and it is
    the stroke itself when there is no pair. *)
Theorem smoother_fits_one_spline (points : stroke) :
  (2 <= List.length points)%nat ->
  (forall e,
      interpolate_spline_points (map fst points) (map snd points)
        (Z.min (py_len points - 1) 3) = Raise e ->
      smooth_stroke interpolate_spline_points points = Raise e)
  /\ (forall xs ys,
         interpolate_spline_points (map fst points) (map snd points)
           (Z.min (py_len points - 1) 3) = OK (xs, ys) ->
         Forall finite xs -> Forall finite ys ->
         exists new_points,
           Forall2 (fun xy (p : point) =>
                      int_of_float (fst xy) = OK (fst p)
                      /\ int_of_float (snd xy) = OK (snd p))
                   (combine xs ys) new_points
           /\ smooth_stroke interpolate_spline_points points
              = OK (match new_points with [] => points | _ :: _ => new_points end)).
Proof.
  intros Hlen. rewrite (spline_degree points Hlen). split.
  - intros e ->. reflexivity.
  - intros xs ys -> Hxs Hys. cbn [bind fst snd].
    destruct (truncation_loop (combine xs ys) []) as [ps [E Hps]].
    + apply Forall_forall. intros [x y] Hin.
      rewrite Forall_forall in Hxs, Hys. split; cbn [fst snd].
      * apply Hxs. now apply in_combine_l in Hin.
      * apply Hys. now apply in_combine_r in Hin.
    + exists ps. split; [assumption|].
      rewrite E. cbn [bind app]. now destruct ps.
Qed.

(** X14.  When the Stroke Smoother returns on a dictionary with distinct
    ids, the ids and their order are kept; under each id lies the smoothed
    stroke, which is the stroke itself when it has at most one point, and
    which has a point whenever the stroke had one. *)
Theorem smoothing_keeps_ids_and_data (d d' : trace_dict) :
  NoDup (map fst d) ->
  smooth_points interpolate_spline_points d = OK d' ->
  map fst d' = map fst d
  /\ Forall2 (fun kv kv' : Z * stroke =>
                smooth_stroke interpolate_spline_points (snd kv)
                = OK (snd kv')
                /\ ((List.length (snd kv) <= 1)%nat -> snd kv' = snd kv)
                /\ (snd kv <> [] -> snd kv' <> [])) d d'.
Proof.
  intros Hnd E. unfold smooth_points in E.
  destruct (dict_loop_returns (smooth_stroke interpolate_spline_points) d [])
    as [ws [Hws E']].
  - exact Hnd.
  - exact (dict_loop_all_return _ d [] d' E).
  - rewrite E' in E. injection E as <-. cbn [app].
    split; [exact (Forall2_combine_fst _ d ws Hws)|].
    clear E' Hnd. induction Hws as [|kv w d ws Hkv _ IH]; cbn;
      constructor; [|assumption].
    cbn [snd]. split; [assumption|]. split.
    + intros Hlen.
      rewrite (smooth_stroke_short interpolate_spline_points _ Hlen) in Hkv.
      now injection Hkv.
    + intros Hne.
      exact (smooth_stroke_nonempty interpolate_spline_points _ w Hne Hkv).
Qed.

End Smoother.

Lemma smoother_fits_one_spline_witness :
  smooth_stroke (fun _ _ _ => Raise LibraryError) [(0, 0); (3, 4)]
  = Raise LibraryError
  /\ exists new_points,
       smooth_stroke resample_at_knots [(0, 0); (3, 4); (5, 5)]
       = OK (match new_points with
             | [] => [(0, 0); (3, 4); (5, 5)]
             | _ :: _ => new_points
             end).
Proof.
  split.
  - apply (proj1 (smoother_fits_one_spline (fun _ _ _ => Raise LibraryError)
                    [(0, 0); (3, 4)] ltac:(cbn; lia))).
    reflexivity.
  - destruct (proj2 (smoother_fits_one_spline resample_at_knots
                       [(0, 0); (3, 4); (5, 5)] ltac:(cbn; lia))
                (map of_Z [0; 3; 5]) (map of_Z [0; 4; 5]))
      as [ps [_ E]].
    + reflexivity.
    + repeat constructor; eexists; reflexivity.
    + repeat constructor; eexists; reflexivity.
    + now exists ps.
Defined.

Lemma smoothing_keeps_ids_and_data_witness :
  map fst [(0, [(0, 0); (3, 4)]); (1, [(7, 7)])] = [0; 1].
Proof.
  apply (smoothing_keeps_ids_and_data resample_at_knots
           [(0, [(0, 0); (3, 4)]); (1, [(7, 7)])]
           [(0, [(0, 0); (3, 4)]); (1, [(7, 7)])]).
  - repeat constructor; cbn; intuition discriminate.
  - reflexivity.
Defined.

(** ** Spatial frequencies: the chain of bins *)

(** X15.  The frequency extractor returns on the empty dictionary only,
    with ten zero counts; on every other dictionary it raises
    [TypeError]. *)
Theorem extract_frequencies_only_on_empty (d : trace_dict) :
  extract_frequencies d
  = match d with
    | [] => OK [[0; 0; 0; 0; 0]; [0; 0; 0; 0; 0]]
    | _ :: _ => Raise TypeError
    end.
Proof. now destruct d. Qed.

Lemma list_incr_total (i : nat) (freq : list Z) :
  (i < List.length freq)%nat ->
  total (list_incr i freq) = total freq + 1
  /\ List.length (list_incr i freq) = List.length freq.
Proof.
  revert i. induction freq as [|n freq IH]; intros i Hi; cbn in Hi; [lia|].
  destruct i as [|i]; cbn.
  - split; [lia | reflexivity].
  - destruct (IH i) as [Ht Hl]; [lia|]. unfold total in *. split; lia.
Qed.

Lemma in_bin_returns (intervals : list npfloat) (v i : Z) :
  0 <= i -> i + 1 < py_len intervals ->
  exists b, in_bin intervals v i = OK b.
Proof.
  intros Hi Hlen. unfold in_bin.
  destruct (py_index_in_range intervals i) as [lo [-> _]]; [lia|].
  cbn [bind]. destruct (np_geb (of_Z v) lo); [|eauto].
  destruct (py_index_in_range intervals (i + 1)) as [hi [-> _]]; [lia|].
  cbn [bind]. eauto.
Qed.

(** X16.  The chain of tests of lines 253 to 262 puts a coordinate in
    exactly one of five bins, whatever the six break points are (NaN
    included): the five counts stay five and their sum grows by one. *)
Theorem count_in_bins_counts_once (intervals : list npfloat)
  (freq : list Z) (v : Z) :
  List.length intervals = 6%nat ->
  List.length freq = 5%nat ->
  exists freq',
    count_in_bins intervals freq v = OK freq'
    /\ List.length freq' = 5%nat
    /\ total freq' = total freq + 1.
Proof.
  intros Hi Hf. unfold count_in_bins.
  assert (py_len intervals = 6) as Hlen by (unfold py_len; lia).
  destruct (in_bin_returns intervals v 0) as [b0 ->]; try lia. cbn [bind].
  destruct b0;
    [destruct (list_incr_total 0 freq) as [Ht Hl]; [lia|];
     eexists; repeat split; [congruence | exact Ht] |].
  destruct (in_bin_returns intervals v 1) as [b1 ->]; try lia. cbn [bind].
  destruct b1;
    [destruct (list_incr_total 1 freq) as [Ht Hl]; [lia|];
     eexists; repeat split; [congruence | exact Ht] |].
  destruct (in_bin_returns intervals v 2) as [b2 ->]; try lia. cbn [bind].
  destruct b2;
    [destruct (list_incr_total 2 freq) as [Ht Hl]; [lia|];
     eexists; repeat split; [congruence | exact Ht] |].
  destruct (in_bin_returns intervals v 3) as [b3 ->]; try lia. cbn [bind].
  destruct b3;
    destruct (list_incr_total 3 freq) as [Ht3 Hl3]; try lia;
    destruct (list_incr_total 4 freq) as [Ht4 Hl4]; try lia;
    eexists; repeat split; solve [congruence | eassumption].
Qed.

Lemma count_in_bins_counts_once_witness :
  exists freq',
    count_in_bins [Fin 0; Fin 1; Fin 2; Fin 3; Fin 4; Fin 5] [0; 0; 0; 0; 0] 5
    = OK freq'
    /\ List.length freq' = 5%nat
    /\ total freq' = total [0; 0; 0; 0; 0] + 1.
Proof.
  apply (count_in_bins_counts_once
           [Fin 0; Fin 1; Fin 2; Fin 3; Fin 4; Fin 5] [0; 0; 0; 0; 0] 5);
    reflexivity.
Defined.

(** ** Reading the traces *)

Section Parser.

Variable str_split : string -> list string.
Variable py_int : string -> option Z.


Lemma parser_returns (text : string) (others : list string) :
  exists points,
    get_coordinates_from_trace str_split py_int (text :: others) = OK points.
Proof.
  unfold get_coordinates_from_trace. rewrite py_index_first. cbn [bind].
  now eexists.
Qed.


Lemma traces_enumerated (traces : list (list string)) :
  map fst (combine (py_range 0 (py_len traces)) traces)
  = py_range 0 (py_len traces).
Proof.
  assert (forall (ks : list Z) (vs : list (list string)),
             List.length ks = List.length vs ->
             map fst (combine ks vs) = ks) as H.
  { induction ks as [|k ks IH]; intros [|v vs] Hlen; cbn in *;
      try reflexivity; try discriminate.
    f_equal. apply IH. lia. }
  apply H. rewrite py_range_length. unfold py_len. lia.
Qed.

Lemma Forall2_combine_values {A B C : Type} (P : B -> C -> Prop)
  (ks : list A) (vs : list B) (ws : list C) :
  List.length ks = List.length vs ->
  Forall2 (fun (kv : A * B) w => P (snd kv) w) (combine ks vs) ws ->
  Forall2 (fun v (kw : A * C) => P v (snd kw)) vs (combine ks ws).
Proof.
  revert vs ws. induction ks as [|k ks IH]; intros [|v vs] ws Hlen Hws;
    cbn in *; try discriminate.
  - constructor.
  - inversion Hws as [|? w ? ws' Hw Hws']; subst. cbn.
    constructor; [exact Hw|]. apply IH; [lia | exact Hws'].
Qed.

Lemma py_range_NoDup (lo hi : Z) : NoDup (py_range lo hi).
Proof.
  unfold py_range. apply Finite.Injective_map_NoDup; [|apply seq_NoDup].
  intros a b H. cbv beta in H. lia.
Qed.

(** X18.  When every trace element has contents, the traces are read into
    a dictionary whose ids are 0, 1, 2, ... in the order of the file, one
    stroke per trace element.  A trace element without contents makes the
    reading raise [IndexError]. *)
Theorem traces_get_consecutive_ids (file : soup) :
  (Forall (fun contents => contents <> []) (trace file) ->
   exists d,
     read_traces str_split py_int file = OK d
     /\ map fst d = py_range 0 (py_len (trace file))
     /\ Forall2 (fun contents (kv : Z * stroke) =>
                   get_coordinates_from_trace str_split py_int contents
                   = OK (snd kv)) (trace file) d)
  /\ (Exists (fun contents => contents = []) (trace file) ->
      read_traces str_split py_int file = Raise IndexError).
Proof.
  unfold read_traces. split.
  - intros Hall.
    destruct (dict_loop_returns (get_coordinates_from_trace str_split py_int)
                (combine (py_range 0 (py_len (trace file))) (trace file)) [])
      as [ws [Hws E]].
    + cbn [map app]. rewrite traces_enumerated. apply py_range_NoDup.
    + intros [k [|text others]] Hin.
      * apply in_combine_r in Hin. rewrite Forall_forall in Hall.
        now specialize (Hall _ Hin).
      * apply parser_returns.
    + eexists. split; [exact E|]. cbn [app].
      rewrite (Forall2_combine_fst _ _ ws Hws), traces_enumerated.
      split; [reflexivity|].
      apply (Forall2_combine_values
               (fun contents w =>
                  get_coordinates_from_trace str_split py_int contents = OK w));
        [|exact Hws].
      rewrite py_range_length. unfold py_len. lia.
  - intros Hex. apply dict_loop_raises.
    + assert (forall (ks : list Z) (vs : list (list string)),
                 List.length ks = List.length vs ->
                 Exists (fun contents => contents = []) vs ->
                 Exists (fun kv : Z * list string =>
                           get_coordinates_from_trace str_split py_int (snd kv)
                           = Raise IndexError) (combine ks vs)) as H.
      { induction ks as [|k ks IH]; intros [|v vs] Hlen Hv; cbn in *;
          try discriminate; [inversion Hv|].
        inversion Hv as [? ? H0 | ? ? H0]; subst.
        - now apply Exists_cons_hd.
        - apply Exists_cons_tl. apply IH; [lia | assumption]. }
      apply H; [|assumption].
      rewrite py_range_length. unfold py_len. lia.
    + apply Forall_forall. intros [k [|text others]] _; cbn [snd].
      * right. reflexivity.
      * left. apply parser_returns.
Qed.

End Parser.

Lemma traces_get_consecutive_ids_witness :
  (exists d,
      read_traces split_spaces decimal_int
        {| annotation := []; trace := [["1 2, 3 4"]; ["x"]; ["5 -6"]] |}
      = OK d
      /\ map fst d = [0; 1; 2])
  /\ read_traces split_spaces decimal_int
       {| annotation := []; trace := [["1 2"]; []] |} = Raise IndexError.
Proof.
  split.
  - destruct (proj1 (traces_get_consecutive_ids split_spaces decimal_int
                       {| annotation := [];
                          trace := [["1 2, 3 4"]; ["x"]; ["5 -6"]] |}))
      as [d [E [Hk _]]].
    + repeat constructor; discriminate.
    + exists d. split; assumption.
  - apply (proj2 (traces_get_consecutive_ids split_spaces decimal_int
                    {| annotation := []; trace := [["1 2"]; []] |})).
    apply Exists_cons_tl, Exists_cons_hd. reflexivity.
Defined.

(** ** The batch *)

Section Batch.

Variable str_split : string -> list string.
Variable py_int : string -> option Z.
Variable np_arctan : npfloat -> npfloat.
Variable interpolate_spline_points :
  list Z -> list Z -> Z -> result (list npfloat * list npfloat).

Lemma extract_features_raises (file : soup) :
  exists e,
    extract_features str_split py_int np_arctan interpolate_spline_points file
    = Raise e.
Proof.
  unfold extract_features.
  repeat match goal with
  | |- exists e, bind (bind (load_name _ _) _) _ = Raise e =>
      rewrite frequencies_call_raises; cbn [bind]; eauto
  | |- exists e, bind ?r _ = Raise e =>
      destruct r; cbn [bind]; [|eauto]
  | |- exists e, (let '(_, _) := ?p in _) = Raise e => destruct p
  end.
Qed.

(** X19.  [build_training_data] returns on the empty list of files only,
    with a frame that has no row.  On every other list it raises the
    exception that [extract_features] raises on the first file, whatever
    the dictionary of the labels holds. *)
Theorem build_training_data_stops_at_first_file
  (ui_to_symbols : list (string * string)) :
  build_training_data str_split py_int np_arctan interpolate_spline_points
    ui_to_symbols [] = inl []
  /\ forall (symbol_file : soup) (others : list soup),
       exists e,
         extract_features str_split py_int np_arctan
           interpolate_spline_points symbol_file = Raise e
         /\ build_training_data str_split py_int np_arctan
              interpolate_spline_points ui_to_symbols (symbol_file :: others)
            = inr (SampleError e).
Proof.
  split; [reflexivity|]. intros symbol_file others.
  destruct (extract_features_raises symbol_file) as [e E].
  exists e. split; [assumption|].
  unfold build_training_data. cbn [build_rows]. now rewrite E.
Qed.

(** X22.  When the traces of a file are read and Duplicate Collapse and
    the Stroke Smoother return, the dictionary handed to the extractors
    has the ids 0, 1, 2, ... of the trace elements in their order, no
    stroke of it is empty, and the stroke count is the number of trace
    elements. *)
Theorem cleaned_strokes_keep_trace_ids (file : soup) (d0 d1 d2 : trace_dict) :
  read_traces str_split py_int file = OK d0 ->
  remove_consecutive_duplicate_points d0 = OK d1 ->
  smooth_points interpolate_spline_points d1 = OK d2 ->
  map fst d2 = py_range 0 (py_len (trace file))
  /\ Forall (fun kv : Z * stroke => snd kv <> []) d2
  /\ snd (extract_num_points_and_strokes d2) = py_len (trace file).
Proof.
  intros Hread Hcollapse Hsmooth.
  assert (map fst d0 = py_range 0 (py_len (trace file))) as K0.
  { unfold read_traces in Hread.
    destruct (dict_loop_returns (get_coordinates_from_trace str_split py_int)
                (combine (py_range 0 (py_len (trace file))) (trace file)) [])
      as [ws [Hws E]].
    - cbn [map app]. rewrite traces_enumerated. apply py_range_NoDup.
    - exact (dict_loop_all_return _ _ [] d0 Hread).
    - rewrite E in Hread. injection Hread as <-. cbn [app].
      now rewrite (Forall2_combine_fst _ _ ws Hws), traces_enumerated. }
  assert (map fst d1 = map fst d0) as K1.
  { unfold remove_consecutive_duplicate_points in Hcollapse.
    destruct (dict_loop_returns points_to_keep d0 []) as [ws [Hws E]].
    - cbn [map app]. rewrite K0. apply py_range_NoDup.
    - exact (dict_loop_all_return _ _ [] d1 Hcollapse).
    - rewrite E in Hcollapse. injection Hcollapse as <-. cbn [app].
      exact (Forall2_combine_fst _ _ ws Hws). }
  assert (map fst d2 = map fst d1) as K2.
  { unfold smooth_points in Hsmooth.
    destruct (dict_loop_returns (smooth_stroke interpolate_spline_points) d1 [])
      as [ws [Hws E]].
    - cbn [map app]. rewrite K1, K0. apply py_range_NoDup.
    - exact (dict_loop_all_return _ _ [] d2 Hsmooth).
    - rewrite E in Hsmooth. injection Hsmooth as <-. cbn [app].
      exact (Forall2_combine_fst _ _ ws Hws). }
  split; [now rewrite K2, K1, K0|]. split.
  - eapply smoothing_keeps_strokes_nonempty; [|exact Hsmooth].
    eapply collapse_keeps_strokes_nonempty. exact Hcollapse.
  - unfold extract_num_points_and_strokes. cbn [snd].
    assert (List.length d2 = List.length (map fst d2)) as L
      by now rewrite length_map.
    rewrite K2, K1, K0, py_range_length in L. unfold py_len in *. lia.
Qed.

End Batch.

Lemma cleaned_strokes_keep_trace_ids_witness :
  map fst [(0, [(0, 0); (1, 1)])] = py_range 0 (py_len (trace two_point_file))
  /\ Forall (fun kv : Z * stroke => snd kv <> []) [(0, [(0, 0); (1, 1)])]
  /\ snd (extract_num_points_and_strokes [(0, [(0, 0); (1, 1)])])
     = py_len (trace two_point_file).
Proof.
  apply (cleaned_strokes_keep_trace_ids split_spaces decimal_int
           resample_at_knots two_point_file
           [(0, [(0, 0); (1, 1)])] [(0, [(0, 0); (1, 1)])]);
    reflexivity.
Defined.

(** ** The sorting key of a file *)

Lemma str_split_on_nonempty (sep : ascii) (s : string) :
  str_split_on sep s <> [].
Proof.
  destruct s as [|c s]; cbn; [discriminate|].
  destruct (Ascii.eqb c sep); [discriminate|].
  destruct (str_split_on sep s); discriminate.
Qed.

Lemma str_split_on_lacks (sep : ascii) (s : string) :
  lacks sep s -> str_split_on sep s = [s].
Proof.
  induction s as [|c s IH]; cbn; [reflexivity|]. intros [Hc Hs].
  destruct (Ascii.eqb_spec c sep) as [->|_]; [contradiction|].
  now rewrite (IH Hs).
Qed.

Lemma str_split_on_append (sep : ascii) (a b : string) :
  str_split_on sep (String.append a (String sep b))
  = str_split_on sep a ++ str_split_on sep b.
Proof.
  induction a as [|c a IH]; cbn.
  - now rewrite Ascii.eqb_refl.
  - destruct (Ascii.eqb c sep); [now rewrite IH|].
    rewrite IH. destruct (str_split_on sep a) as [|w ws] eqn:E; [|reflexivity].
    now apply str_split_on_nonempty in E.
Qed.

Lemma py_index_last_snoc {A : Type} (l : list A) (a : A) :
  py_index (l ++ [a]) (-1) = OK a.
Proof.
  destruct l as [|b l]; [reflexivity|].
  change ((b :: l) ++ [a]) with (b :: (l ++ [a])).
  rewrite py_index_last, last_cons_default. now rewrite last_last.
Qed.

Lemma str_index_first (c : ascii) (pre rest : string) :
  lacks c pre ->
  str_index c (String.append pre (String c rest))
  = OK (Z.of_nat (String.length pre)).
Proof.
  induction pre as [|c' pre IH]; cbn [String.append str_index String.length].
  - intros _. now rewrite Ascii.eqb_refl.
  - intros [Hc Hpre].
    destruct (Ascii.eqb_spec c' c) as [->|_]; [contradiction|].
    rewrite (IH Hpre). cbn [bind]. f_equal. lia.
Qed.

Lemma str_index_lacks (c : ascii) (s : string) :
  lacks c s -> str_index c s = Raise ValueError.
Proof.
  induction s as [|c' s IH]; cbn; [reflexivity|]. intros [Hc Hs].
  destruct (Ascii.eqb_spec c' c) as [->|_]; [contradiction|].
  now rewrite (IH Hs).
Qed.

Lemma substring_prefix (s rest : string) :
  substring 0 (String.length s) (String.append s rest) = s.
Proof. induction s as [|c s IH]; cbn; [now destruct rest | now rewrite IH]. Qed.

Section SortingKey.

Variable on_windows : bool.
Variable py_int : string -> option Z.

Lemma sorting_key_of_name (dir name : string) :
  lacks (path_separator on_windows) name ->
  file_sorting_helper on_windows py_int
    (String.append dir (String (path_separator on_windows) name))
  = file_sorting_helper on_windows py_int name.
Proof.
  intros Hname. unfold file_sorting_helper. fold (path_separator on_windows).
  rewrite str_split_on_append, (str_split_on_lacks _ name Hname).
  now rewrite py_index_last_snoc.
Qed.

(** X20.  The key depends on the last component of the path only: the
    directories before the last separator are ignored. *)
Theorem sorting_key_ignores_directories (dir name : string) :
  lacks (path_separator on_windows) name ->
  file_sorting_helper on_windows py_int
    (String.append dir (String (path_separator on_windows) name))
  = file_sorting_helper on_windows py_int name.
Proof. apply sorting_key_of_name. Qed.

(** X21.  On a file name with no separator in it, the key is the integer
    written between the third character and the first dot, the three
    leading characters being dropped unread; [ValueError] is raised when
    that text is not an integer, and when the name has no dot. *)
Theorem sorting_key_is_number_before_dot (name : string) :
  lacks (path_separator on_windows) name ->
  (lacks "."%char name ->
   file_sorting_helper on_windows py_int name = Raise ValueError)
  /\ (forall (c1 c2 c3 : ascii) (num ext : string),
         name = String c1 (String c2 (String c3
                  (String.append num (String "."%char ext)))) ->
         lacks "."%char (String c1 (String c2 (String c3 num))) ->
         file_sorting_helper on_windows py_int name
         = match py_int num with
           | Some iso_num => OK iso_num
           | None => Raise ValueError
           end).
Proof.
  intros Hsep. unfold file_sorting_helper. fold (path_separator on_windows).
  rewrite (str_split_on_lacks _ name Hsep).
  change (py_index [name] (-1)) with (OK name). cbn [bind]. split.
  - intros Hdot. now rewrite (str_index_lacks _ name Hdot).
  - intros c1 c2 c3 num ext -> Hdot.
    change (String c1 (String c2 (String c3
              (String.append num (String "."%char ext)))))
      with (String.append (String c1 (String c2 (String c3 num)))
              (String "."%char ext)).
    rewrite (str_index_first _ _ ext Hdot). cbn [bind].
    cbn [String.length String.append].
    replace (Z.to_nat (Z.of_nat (S (S (S (String.length num))))) - 3)%nat
      with (String.length num) by lia.
    cbn [substring]. now rewrite substring_prefix.
Qed.

End SortingKey.

Lemma sorting_key_ignores_directories_witness :
  file_sorting_helper false decimal_int "trainingSymbols/iso12.inkml"
  = file_sorting_helper false decimal_int "iso12.inkml".
Proof.
  apply (sorting_key_ignores_directories false decimal_int
           "trainingSymbols" "iso12.inkml").
  cbn. repeat split; discriminate.
Defined.

Lemma sorting_key_is_number_before_dot_witness :
  file_sorting_helper false decimal_int "iso12.inkml" = OK 12
  /\ file_sorting_helper false decimal_int "iso_GT" = Raise ValueError.
Proof.
  split.
  - apply (proj2 (sorting_key_is_number_before_dot false decimal_int
                    "iso12.inkml" ltac:(cbn; repeat split; discriminate))
             "i"%char "s"%char "o"%char "12" "inkml" eq_refl).
    cbn. repeat split; discriminate.
  - apply (proj1 (sorting_key_is_number_before_dot false decimal_int
                    "iso_GT" ltac:(cbn; repeat split; discriminate))).
    cbn. repeat split; discriminate.
Defined.

(** ** The table of the labels *)

Lemma str_split_on_two (c : ascii) (a b : string) :
  lacks c a -> lacks c b ->
  str_split_on c (String.append a (String c b)) = [a; b].
Proof.
  intros Ha Hb.
  now rewrite str_split_on_append, (str_split_on_lacks c a Ha),
    (str_split_on_lacks c b Hb).
Qed.

Lemma str_split_on_first (c : ascii) (a b : string) :
  lacks c a ->
  exists field others,
    str_split_on c (String.append a (String c b)) = a :: field :: others.
Proof.
  intros Ha. rewrite str_split_on_append, (str_split_on_lacks c a Ha).
  destruct (str_split_on c b) as [|field others] eqn:E.
  - now apply str_split_on_nonempty in E.
  - now exists field, others.
Qed.

Lemma py_index_second {A : Type} (a b : A) (l : list A) :
  py_index (a :: b :: l) 1 = OK b.
Proof.
  destruct (py_index_in_range (a :: b :: l) 1) as [c [E Hc]].
  - unfold py_len. cbn [List.length]. lia.
  - change (Z.to_nat 1) with 1%nat in Hc. cbn in Hc. congruence.
Qed.

Lemma str_rstrip_newline_end (s : string) :
  lacks "010"%char s ->
  str_rstrip_newlines (String.append s (String "010"%char EmptyString)) = s.
Proof.
  induction s as [|c s IH]; cbn [String.append str_rstrip_newlines].
  - reflexivity.
  - intros [Hc Hs]. rewrite (IH Hs).
    destruct s as [|c' s]; [|reflexivity].
    now destruct (Ascii.eqb_spec c "010"%char).
Qed.

Lemma str_strip_trailing_newline (symbol : string) :
  lacks "010"%char symbol ->
  str_strip_newlines (String.append symbol (String "010"%char EmptyString))
  = symbol.
Proof.
  intros H. unfold str_strip_newlines. destruct symbol as [|c s].
  - reflexivity.
  - cbn [String.append str_lstrip_newlines]. destruct H as [Hc Hs].
    destruct (Ascii.eqb_spec c "010"%char); [contradiction|].
    apply (str_rstrip_newline_end (String c s)). now split.
Qed.

Lemma lacks_append (c : ascii) (a b : string) :
  lacks c a -> lacks c b -> lacks c (String.append a b).
Proof.
  induction a as [|c' a IH]; cbn; [tauto|]. intros [Hc Ha] Hb. auto.
Qed.

Lemma str_dict_get_set (k v : string) (d : list (string * string)) :
  dict_get (str_dict_set k v d) (Some k) = Some v.
Proof.
  induction d as [|[k' v'] d IH]; cbn.
  - now rewrite String.eqb_refl.
  - destruct (String.eqb k' k) eqn:E; cbn.
    + now rewrite String.eqb_refl.
    + now rewrite E.
Qed.

Lemma str_dict_get_set_other (k k' v : string) (d : list (string * string)) :
  k' <> k ->
  dict_get (str_dict_set k' v d) (Some k) = dict_get d (Some k).
Proof.
  intros Hne. induction d as [|[k0 v0] d IH]; cbn.
  - now destruct (String.eqb_spec k' k).
  - destruct (String.eqb_spec k0 k') as [->|Hk0]; cbn.
    + destruct (String.eqb_spec k' k); [contradiction | reflexivity].
    + now rewrite IH.
Qed.

Lemma for_each_app {A S : Type} (xs ys : list A)
  (body : S -> A -> result S) (s : S) :
  for_each (xs ++ ys) body s
  = (s' <- for_each xs body s ;; for_each ys body s').
Proof.
  revert s. induction xs as [|a xs IH]; intros s; cbn; [reflexivity|].
  destruct (body s a); cbn; [apply IH | reflexivity].
Qed.

(** X23.  The table of the labels is read when every line has a comma;
    a line without one makes the reading raise [IndexError]. *)
Theorem ground_truth_needs_a_comma_per_line (lines : list string) :
  (Forall (fun line =>
             exists uid rest,
               lacks ","%char uid
               /\ line = String.append uid (String ","%char rest)) lines ->
   exists d, read_ground_truth lines = OK d)
  /\ (Exists (fun line => lacks ","%char line) lines ->
      (forall line, In line lines ->
         lacks ","%char line
         \/ exists uid rest,
              lacks ","%char uid
              /\ line = String.append uid (String ","%char rest)) ->
      read_ground_truth lines = Raise IndexError).
Proof.
  unfold read_ground_truth. split.
  - intros Hall.
    destruct (for_each_invariant (fun _ => True) lines
                (fun ground_truth_dict line =>
                   symbol <- py_index (str_split_on ","%char line) 1 ;;
                   uid <- py_index (str_split_on ","%char line) 0 ;;
                   OK (str_dict_set uid (str_strip_newlines symbol)
                         ground_truth_dict)))
      with (s := @nil (string * string)) as [d [E _]]; [|exact I|eauto].
    intros s line Hin _. rewrite Forall_forall in Hall.
    destruct (Hall line Hin) as (uid & rest & Huid & ->).
    destruct (str_split_on_first ","%char uid rest Huid)
      as (field & others & ->).
    rewrite py_index_second, py_index_first. cbn [bind]. eauto.
  - generalize (@nil (string * string)).
    induction lines as [|line lines IH]; intros acc Hex Hall;
      [inversion Hex|].
    rewrite for_each_cons. cbv beta.
    destruct (Hall line (or_introl eq_refl))
      as [Hlacks | (uid & rest & Huid & ->)].
    + now rewrite (str_split_on_lacks _ line Hlacks).
    + destruct (str_split_on_first ","%char uid rest Huid)
        as (field & others & E).
      rewrite E, py_index_second, py_index_first. cbn [bind]. apply IH.
      * inversion Hex as [? ? H | ? ? H]; subst; [|assumption].
        exfalso. clear - H Huid.
        induction uid as [|c uid IHu]; cbn in H.
        -- now destruct H.
        -- destruct H as [_ H]. destruct Huid as [_ Huid]. auto.
      * intros l Hl. apply Hall. now right.
Qed.

Lemma ground_truth_needs_a_comma_per_line_witness :
  (exists d, read_ground_truth ["a_1,x"; "a_2,\sqrt"] = OK d)
  /\ read_ground_truth ["a_1,x"; "a_2"] = Raise IndexError.
Proof.
  split.
  - apply (proj1 (ground_truth_needs_a_comma_per_line ["a_1,x"; "a_2,\sqrt"])).
    repeat constructor.
    + exists "a_1", "x". cbn. repeat split; discriminate.
    + exists "a_2", "\sqrt". cbn. repeat split; discriminate.
  - apply (proj2 (ground_truth_needs_a_comma_per_line ["a_1,x"; "a_2"])).
    + apply Exists_cons_tl, Exists_cons_hd. cbn. repeat split; discriminate.
    + intros line [<- | [<- | []]].
      * right. exists "a_1", "x". cbn. repeat split; discriminate.
      * left. cbn. repeat split; discriminate.
Defined.

(** X24.  When the table of the labels is read, looking up an identifier
    gives the symbol of the last line that starts with it: for a line
    [uid,symbol] ended by a newline, after which no line has [uid] as its
    first field, the table maps [uid] to [symbol]. *)
Theorem ground_truth_maps_id_to_symbol (before after : list string)
  (uid symbol : string) (d : list (string * string)) :
  lacks ","%char uid ->
  lacks ","%char symbol ->
  lacks "010"%char symbol ->
  (forall line first,
      In line after ->
      py_index (str_split_on ","%char line) 0 = OK first -> first <> uid) ->
  read_ground_truth
    (before
       ++ String.append uid
            (String ","%char
               (String.append symbol (String "010"%char EmptyString)))
       :: after) = OK d ->
  dict_get d (Some uid) = Some symbol.
Proof.
  intros Huid Hsym Hnl Hafter. unfold read_ground_truth.
  rewrite for_each_app. intros E.
  apply bind_OK in E. destruct E as [d1 [_ E]].
  rewrite for_each_cons in E. cbv beta in E.
  rewrite str_split_on_two in E;
    [|assumption
     |apply lacks_append; [assumption | cbn; split; [discriminate | exact I]]].
  rewrite py_index_second, py_index_first in E. cbn [bind] in E.
  revert E. rewrite (str_strip_trailing_newline symbol Hnl).
  apply (for_each_preserves
           (fun t : list (string * string) => dict_get t (Some uid) = Some symbol)).
  - intros t line t' Hin Ht Hstep.
    apply bind_OK in Hstep. destruct Hstep as [sym' [_ Hstep]].
    apply bind_OK in Hstep. destruct Hstep as [first [Hfirst [= <-]]].
    rewrite str_dict_get_set_other; [assumption|].
    exact (Hafter line first Hin Hfirst).
  - apply str_dict_get_set.
Qed.

Lemma ground_truth_maps_id_to_symbol_witness :
  dict_get [("a_1", "y"); ("a_2", "\sqrt")] (Some "a_1") = Some "y".
Proof.
  apply (ground_truth_maps_id_to_symbol ["a_1,x"] ["a_2,\sqrt"] "a_1" "y").
  - cbn. repeat split; discriminate.
  - cbn. repeat split; discriminate.
  - cbn. repeat split; discriminate.
  - intros line first [<- | []]. cbn. intros [= <-]. discriminate.
  - reflexivity.
Defined.
